(** * queryosity: prompt construction, result extraction, sorting and output

    A shallow embedding of [queryosity.py] and proofs about it.

    Conventions of the embedding.

    - A Python [str] is modelled as a [string], read as the UTF-8 encoding
      of the text.  The character classes [\d] and [\s] and [str.strip]
      are modelled on the ASCII range, so the embedding is exact for
      texts whose characters outside ASCII are neither Unicode white
      space nor Unicode decimal digits.
    - Integers are unbounded ([Z]); the interpreter's optional limit on
      the number of digits accepted by [int()] is not modelled in [int]
      and [str].  The statements that depend on it carry it as a
      hypothesis ([within_limit], [short_score], [score_fits]).
    - The statements that depend on the classes [\d] and [\s] or on
      [str.strip] being the ASCII ones are stated for ASCII texts
      ([isascii]).
    - An entry (a [dict] with the keys [title], [link], [relevance],
      [abstract], [source] and possibly [year]) is a record of optional
      fields: [None] is a missing key.
    - The generation collaborator is a function from the prompt to an
      outcome: either it raises, or it returns the response text.
    - The library functions the program calls ([re.compile] and
      [findall], [str.strip], [int], [list.sort], [json.dump],
      [csv.DictWriter]) are written out for the fragment the program
      uses, each under the name it has in the program. *)

From Stdlib Require Import List Bool Arith ZArith Lia Ascii String.
From Stdlib Require Import DecimalString DecimalZ Permutation Sorted.
Import ListNotations.
Open Scope string_scope.

(** ** Characters and strings *)

Definition nl : ascii := "010"%char.
Definition cr : ascii := "013"%char.
Definition dq : ascii := "034"%char.

(** [\d] on the ASCII range. *)
Definition is_digit (c : ascii) : bool :=
  let n := nat_of_ascii c in ((48 <=? n) && (n <=? 57))%nat.

(** [\s] and [str.isspace] on the ASCII range: TAB, LF, VT, FF, CR,
    FS, GS, RS, US and the space. *)
Definition is_space (c : ascii) : bool :=
  let n := nat_of_ascii c in
  (((9 <=? n) && (n <=? 13)) || ((28 <=? n) && (n <=? 32)))%nat.

Fixpoint all_chars (p : ascii -> bool) (s : string) : bool :=
  match s with
  | "" => true
  | String c s' => p c && all_chars p s'
  end.

Definition first_is (p : ascii -> bool) (s : string) : bool :=
  match s with
  | "" => false
  | String c _ => p c
  end.

Fixpoint last_is (p : ascii -> bool) (s : string) : bool :=
  match s with
  | "" => false
  | String c "" => p c
  | String _ s' => last_is p s'
  end.

Definition not_char (a : ascii) (c : ascii) : bool := negb (Ascii.eqb c a).

(** [needle in hay]. *)
Fixpoint contains (needle hay : string) : bool :=
  String.prefix needle hay ||
  match hay with
  | "" => false
  | String _ hay' => contains needle hay'
  end.

(** ** [str.strip()] *)

Fixpoint lstrip (s : string) : string :=
  match s with
  | "" => ""
  | String c s' => if is_space c then lstrip s' else s
  end.

Fixpoint rstrip (s : string) : string :=
  match s with
  | "" => ""
  | String c s' =>
      match rstrip s' with
      | "" => if is_space c then "" else String c ""
      | t => String c t
      end
  end.

Definition strip (s : string) : string := rstrip (lstrip s).

(** ** [int()] and [str()] on integers *)

Definition digit_value (c : ascii) : Z := Z.of_nat (nat_of_ascii c - 48).

Fixpoint int_acc (acc : Z) (s : string) : Z :=
  match s with
  | "" => acc
  | String c s' => int_acc (10 * acc + digit_value c) s'
  end.

(** [int(s)] for [s] a non-empty run of ASCII decimal digits, within the
    interpreter's limit on digits; [None] stands for the [ValueError]
    raised on a text that is no integer literal. *)
Definition int (s : string) : option Z :=
  if negb (String.eqb s "") && all_chars is_digit s
  then Some (int_acc 0 s) else None.

(** [str(n)] for an integer [n]. *)
Definition str (n : Z) : string := NilZero.string_of_int (Z.to_int n).

(** ** The regular-expression engine

    The fragment of [re] the program uses: a sequence of single-character
    atoms, each taken once, or under [*], [+] or the lazy [*?], and flat
    capture groups.  Matching is by backtracking in the order [re]
    explores: a greedy quantifier tries the longest run first, a lazy one
    the shortest. *)

Inductive cclass : Type :=
| Digit                (* \d *)
| Space                (* \s *)
| AnyChar              (* .  under re.DOTALL *)
| Lit (c : ascii).     (* a literal character *)

Inductive quant : Type :=
| Once | Greedy0 | Greedy1 | Lazy0.   (* none, *, +, *? *)

Inductive node : Type :=
| Atom (c : cclass) (q : quant)
| Open
| Close.

Inductive token : Type :=
| TAtom (c : cclass)
| TOpen | TClose | TStar | TPlus | TQuest.

Definition is_alnum (c : ascii) : bool :=
  let n := nat_of_ascii c in
  is_digit c || (((65 <=? n) && (n <=? 90)) || ((97 <=? n) && (n <=? 122)))%nat.

(** The atom written [\c]. *)
Definition escape (c : ascii) : option cclass :=
  if Ascii.eqb c "d" then Some Digit
  else if Ascii.eqb c "s" then Some Space
  else if Ascii.eqb c "n" then Some (Lit nl)
  else if is_alnum c || (128 <=? nat_of_ascii c)%nat then None
  else Some (Lit c).

(** The token of an unescaped character. *)
Definition plain (c : ascii) : option token :=
  if Ascii.eqb c "." then Some (TAtom AnyChar)
  else if Ascii.eqb c "(" then Some TOpen
  else if Ascii.eqb c ")" then Some TClose
  else if Ascii.eqb c "*" then Some TStar
  else if Ascii.eqb c "+" then Some TPlus
  else if Ascii.eqb c "?" then Some TQuest
  else if contains (String c "") "[]{}|^$" then None
  else Some (TAtom (Lit c)).

Fixpoint tokens (s : string) : option (list token) :=
  match s with
  | "" => Some []
  | String c r =>
      if Ascii.eqb c "\" then
        match r with
        | "" => None
        | String e r' =>
            match escape e, tokens r' with
            | Some a, Some ts => Some (TAtom a :: ts)
            | _, _ => None
            end
        end
      else
        match plain c, tokens r with
        | Some t, Some ts => Some (t :: ts)
        | _, _ => None
        end
  end.

Fixpoint nodes (ts : list token) : option (list node) :=
  match ts with
  | [] => Some []
  | TAtom a :: TStar :: TQuest :: r => option_map (cons (Atom a Lazy0)) (nodes r)
  | TAtom a :: TStar :: r => option_map (cons (Atom a Greedy0)) (nodes r)
  | TAtom a :: TPlus :: r => option_map (cons (Atom a Greedy1)) (nodes r)
  | TAtom a :: r => option_map (cons (Atom a Once)) (nodes r)
  | TOpen :: r => option_map (cons Open) (nodes r)
  | TClose :: r => option_map (cons Close) (nodes r)
  | _ => None
  end.

(** Groups are flat: every [Open] is closed before the next one. *)
Fixpoint flat (inside : bool) (p : list node) : bool :=
  match p with
  | [] => negb inside
  | Open :: k => negb inside && flat true k
  | Close :: k => inside && flat false k
  | Atom _ _ :: k => flat inside k
  end.

(** [re.compile(pattern, re.DOTALL)] on the supported fragment. *)
Definition compile (pattern : string) : option (list node) :=
  match tokens pattern with
  | Some ts =>
      match nodes ts with
      | Some p => if flat false p then Some p else None
      | None => None
      end
  | None => None
  end.

Definition matches (c : cclass) (a : ascii) : bool :=
  match c with
  | Digit => is_digit a
  | Space => is_space a
  | AnyChar => true
  | Lit b => Ascii.eqb a b
  end.

(** The result of a match: the captured groups, and the unread text. *)
Definition result : Type := list string * string.

(** A character read inside a group belongs to the group being closed
    next. *)
Definition keep (inside : bool) (a : ascii) (r : option result) : option result :=
  if inside then
    match r with
    | Some (g :: gs, rest) => Some (String a g :: gs, rest)
    | other => other
    end
  else r.

Fixpoint greedy (c : cclass) (k : string -> option result) (inside : bool)
    (s : string) : option result :=
  match s with
  | String a s' =>
      if matches c a then
        match keep inside a (greedy c k inside s') with
        | Some r => Some r
        | None => k s
        end
      else k s
  | "" => k s
  end.

Fixpoint lazy (c : cclass) (k : string -> option result) (inside : bool)
    (s : string) : option result :=
  match k s with
  | Some r => Some r
  | None =>
      match s with
      | String a s' => if matches c a then keep inside a (lazy c k inside s') else None
      | "" => None
      end
  end.

(** [run p inside s]: match the nodes [p] at the start of [s]. *)
Fixpoint run (p : list node) (inside : bool) (s : string) {struct p} : option result :=
  match p with
  | [] => Some ([], s)
  | Open :: k => run k true s
  | Close :: k =>
      match run k false s with
      | Some (gs, rest) => Some ("" :: gs, rest)
      | None => None
      end
  | Atom c Once :: k =>
      match s with
      | String a s' => if matches c a then keep inside a (run k inside s') else None
      | "" => None
      end
  | Atom c Greedy0 :: k => greedy c (run k inside) inside s
  | Atom c Greedy1 :: k =>
      match s with
      | String a s' =>
          if matches c a then keep inside a (greedy c (run k inside) inside s') else None
      | "" => None
      end
  | Atom c Lazy0 :: k => lazy c (run k inside) inside s
  end.

(** [pattern.findall(s)]: the groups of the leftmost match, then of the
    leftmost match after it, and so on.  [skip] counts the characters of
    the last match still to be passed over. *)
Fixpoint scan (p : list node) (skip : nat) (s : string) : list (list string) :=
  match skip with
  | S n =>
      match s with
      | String _ s' => scan p n s'
      | "" => []
      end
  | O =>
      match run p false s with
      | Some (gs, rest) =>
          gs :: match s with
                | String _ s' => scan p (String.length s - String.length rest - 1) s'
                | "" => []
                end
      | None =>
          match s with
          | String _ s' => scan p 0 s'
          | "" => []
          end
      end
  end.

Definition findall (p : list node) (s : string) : list (list string) := scan p 0 s.

(** ** The program *)

Definition pattern_source : string :=
  "\d+\.\s\[(.*?)\]\((.*?)\)\s*\n\*\*Relevance:\*\*\s*(\d+)/10\n\*\*Abstract:\*\*\s*(.*?)\n".

Definition pattern : list node :=
  match compile pattern_source with
  | Some p => p
  | None => []
  end.

Definition NL : string := String nl "".

(** The value of a key whose type the program does not fix. *)
Inductive value : Type :=
| VInt (n : Z)
| VStr (s : string).

(** An entry of the result list. *)
Record entry : Type := {
  title : option string;
  link : option string;
  relevance : option Z;
  abstract : option string;
  source : option string;
  year : option value
}.

(** What [model.generate_content(prompt, ...)] followed by [resp.text]
    does: raise an exception [exc], or return the text. *)
Inductive outcome : Type :=
| Raises (exc : string)
| Returns (text : string).

Definition prompt (query : string) (max_results : Z) : string :=
  "Search Google Scholar for recent academic studies related to the following query:" ++ NL ++
  "'" ++ query ++ "'." ++ NL ++
  "Provide the top " ++ str max_results ++ " articles with this exact Markdown format:" ++ NL ++
  "<number>. [<Title>](<URL>)" ++ NL ++ "**Relevance:** <score>/10" ++ NL ++
  "**Abstract:** <text>" ++ NL ++
  "Rate relevance from 1–10 where 10 is the most relevant.".

(** The entry of the [except] branch; [exc] is [str(exc)]. *)
Definition error_entry (exc : string) : entry :=
  {| title := Some ("Gemini Error: " ++ exc);
     link := Some "";
     relevance := Some 0%Z;
     abstract := Some "";
     source := Some "gemini";
     year := None |}.

Definition make_entry (t u : string) (score : Z) (a : string) : entry :=
  {| title := Some (strip t);
     link := Some (strip u);
     relevance := Some score;
     abstract := Some (strip a);
     source := Some "gemini";
     year := None |}.

(** The loop over the matches; [inl exc] is an exception raised in it. *)
Fixpoint entries_of (ms : list (list string)) : string + list entry :=
  match ms with
  | [] => inr []
  | [t; u; score; a] :: ms' =>
      match int score with
      | Some n =>
          match entries_of ms' with
          | inr es => inr (make_entry t u n a :: es)
          | inl exc => inl exc
          end
      | None => inl ("invalid literal for int() with base 10: '" ++ score ++ "'")
      end
  | _ :: _ => inl "wrong number of values to unpack (expected 4)"
  end.

Definition gemini_scholar_search (generate_content : string -> outcome)
    (query : string) (max_results : Z) : list entry :=
  match generate_content (prompt query max_results) with
  | Returns raw_md =>
      match entries_of (findall pattern raw_md) with
      | inr entries => entries
      | inl exc => [error_entry exc]
      end
  | Raises exc => [error_entry exc]
  end.

(** ** Output formatters *)

Definition str_value (v : value) : string :=
  match v with
  | VInt n => str n
  | VStr s => s
  end.

Definition truthy (v : value) : bool :=
  match v with
  | VInt n => negb (n =? 0)%Z
  | VStr s => negb (String.eqb s "")
  end.

(** [e['link'] or '#']. *)
Definition link_or_hash (l : string) : string :=
  if String.eqb l "" then "#" else l.

Definition year_line (e : entry) : string :=
  match year e with
  | Some y => if truthy y then "**Year:** " ++ str_value y ++ NL else ""
  | None => ""
  end.

(** One element of [md_lines]; [None] is the [KeyError] of a missing key. *)
Definition md_block (idx : Z) (e : entry) : option string :=
  match title e, link e, relevance e, abstract e with
  | Some t, Some l, Some r, Some a =>
      Some (str idx ++ ". [" ++ t ++ "](" ++ link_or_hash l ++ ")" ++ NL ++
            "**Relevance:** " ++ str r ++ "/10" ++ NL ++
            year_line e ++
            "**Abstract:** " ++ a ++ NL)
  | _, _, _, _ => None
  end.

Fixpoint md_lines (idx : Z) (entries : list entry) : option (list string) :=
  match entries with
  | [] => Some []
  | e :: es =>
      match md_block idx e, md_lines (idx + 1) es with
      | Some b, Some bs => Some (b :: bs)
      | _, _ => None
      end
  end.

Definition format_md (entries : list entry) : option string :=
  option_map (String.concat NL) (md_lines 1 entries).

(** ** The JSON writer

    [json.dump(entries, f, indent=2, ensure_ascii=False)]: a list of
    objects, one per entry, with the keys the entry has, in the order
    the extractor inserts them. *)

Definition hex_digit (n : nat) : ascii :=
  ascii_of_nat (if (n <? 10)%nat then 48 + n else 87 + n).

(** The text of a character inside a JSON string. *)
Definition json_escape_char (c : ascii) : string :=
  let n := nat_of_ascii c in
  if Ascii.eqb c dq then String "\" (String dq "")
  else if Ascii.eqb c "\" then "\\"
  else if Ascii.eqb c nl then "\n"
  else if Ascii.eqb c cr then "\r"
  else if (n =? 9)%nat then "\t"
  else if (n =? 8)%nat then "\b"
  else if (n =? 12)%nat then "\f"
  else if (n <? 32)%nat then
    "\u00" ++ String (hex_digit (n / 16)) (String (hex_digit (n mod 16)) "")
  else String c "".

Fixpoint json_escape (s : string) : string :=
  match s with
  | "" => ""
  | String c s' => json_escape_char c ++ json_escape s'
  end.

Definition json_string (s : string) : string :=
  String dq (json_escape s ++ String dq "").

Definition json_value (v : value) : string :=
  match v with
  | VInt n => str n
  | VStr s => json_string s
  end.

Definition item {A : Type} (k : string) (f : A -> value) (o : option A)
  : list (string * value) :=
  match o with
  | Some x => [(k, f x)]
  | None => []
  end.

(** [row.items()]: the keys of an entry and their values. *)
Definition items (e : entry) : list (string * value) :=
  (item "title" VStr (title e) ++ item "link" VStr (link e) ++
   item "relevance" VInt (relevance e) ++ item "abstract" VStr (abstract e) ++
   item "source" VStr (source e) ++ item "year" (fun v => v) (year e))%list.

Definition json_member (kv : string * value) : string :=
  json_string (fst kv) ++ ": " ++ json_value (snd kv).

Definition member_separator : string := "," ++ NL ++ "    ".
Definition object_separator : string := "," ++ NL ++ "  ".

Definition json_object (ms : list (string * value)) : string :=
  match ms with
  | [] => "{}"
  | _ => "{" ++ NL ++ "    " ++
         String.concat member_separator (map json_member ms) ++ NL ++ "  }"
  end.

(** The object written for an entry. *)
Definition written_object (e : entry) : string := json_object (items e).

(** The text [write_json] writes to the file. *)
Definition write_json (entries : list entry) : string :=
  match entries with
  | [] => "[]"
  | _ => "[" ++ NL ++ "  " ++
         String.concat object_separator (map written_object entries) ++ NL ++ "]"
  end.

(** ** The CSV writer

    [csv.DictWriter] with the default dialect: fields separated by [,],
    rows ended by CR LF, and a field put in double quotes, its quotes
    doubled, when it holds a comma, a quote, a CR or a LF. *)

Definition CRLF : string := String cr (String nl "").

Definition fieldnames : list string :=
  ["title"; "link"; "relevance"; "abstract"; "source"].

(** [row.get(k)]: the value of the key [k], if the entry has it. *)
Definition get (row : entry) (k : string) : option value :=
  if String.eqb k "title" then option_map VStr (title row)
  else if String.eqb k "link" then option_map VStr (link row)
  else if String.eqb k "relevance" then option_map VInt (relevance row)
  else if String.eqb k "abstract" then option_map VStr (abstract row)
  else if String.eqb k "source" then option_map VStr (source row)
  else if String.eqb k "year" then year row
  else None.

(** The text the writer is given for [row.get(k, "")]. *)
Definition cell (row : entry) (k : string) : string :=
  match get row k with
  | Some v => str_value v
  | None => ""
  end.

Definition special (c : ascii) : bool :=
  Ascii.eqb c "," || Ascii.eqb c dq || Ascii.eqb c cr || Ascii.eqb c nl.

Fixpoint needs_quotes (s : string) : bool :=
  match s with
  | "" => false
  | String c s' => special c || needs_quotes s'
  end.

Fixpoint double_quotes (s : string) : string :=
  match s with
  | "" => ""
  | String c s' =>
      if Ascii.eqb c dq then String dq (String dq (double_quotes s'))
      else String c (double_quotes s')
  end.

Definition csv_field (s : string) : string :=
  if needs_quotes s then String dq (double_quotes s ++ String dq "") else s.

(** [writer.writerow(cells)]; a row of one empty field is written as a
    pair of quotes. *)
Definition writerow (cells : list string) : string :=
  match cells with
  | [""] => String dq (String dq CRLF)
  | _ => String.concat "," (map csv_field cells) ++ CRLF
  end.

(** The rows written by the loop over the entries. *)
Fixpoint write_rows (entries : list entry) : string :=
  match entries with
  | [] => ""
  | row :: entries' => writerow (map (cell row) fieldnames) ++ write_rows entries'
  end.

(** The text [write_csv] writes to the file: the header, then the rows. *)
Definition write_csv (entries : list entry) : string :=
  writerow fieldnames ++ write_rows entries.

(** The text of an optional field. *)
Definition text_of (o : option string) : string :=
  match o with
  | Some s => s
  | None => ""
  end.

Definition number_of (o : option Z) : string :=
  match o with
  | Some n => str n
  | None => ""
  end.

(** ** Sorting, in [main] *)

Section ListSort.
Context {A : Type} (key : A -> Z).

(** Insertion after the elements that are smaller, before those that
    are equal or greater. *)
Fixpoint insert (x : A) (l : list A) : list A :=
  match l with
  | [] => [x]
  | y :: l' => if (key x <=? key y)%Z then x :: l else y :: insert x l'
  end.

Fixpoint sort_ascending (l : list A) : list A :=
  match l with
  | [] => []
  | x :: l' => insert x (sort_ascending l')
  end.

(** [l.sort(key=key, reverse=reverse)]: a stable sort; under [reverse]
    the list is reversed, sorted and reversed again. *)
Definition list_sort (reverse : bool) (l : list A) : list A :=
  if reverse then rev (sort_ascending (rev l)) else sort_ascending l.

(** The orders of a sorted list. *)
Definition ascending (x y : A) : Prop := (key x <= key y)%Z.
Definition descending (x y : A) : Prop := (key y <= key x)%Z.

(** The elements whose key is [k], in their order. *)
Definition with_key (k : Z) (l : list A) : list A :=
  filter (fun x => (key x =? k)%Z) l.
End ListSort.

(** [lambda r: r.get("relevance", 0)]. *)
Definition relevance_key (r : entry) : Z :=
  match relevance r with
  | Some n => n
  | None => 0%Z
  end.

(** The sorting step of [main]; [sort] is [args.sort]. *)
Definition sort_results (sort : string) (all_results : list entry) : list entry :=
  if String.eqb sort "relevance"
  then list_sort relevance_key true all_results
  else all_results.

(** ** Reading the output back *)

(** [json.load] on lists of objects whose values are strings and
    integers; [None] is a text that is not such a list. *)

Definition json_space (c : ascii) : bool :=
  Ascii.eqb c " " || Ascii.eqb c "009" || Ascii.eqb c nl || Ascii.eqb c cr.

Fixpoint skip_ws (s : string) : string :=
  match s with
  | "" => ""
  | String c s' => if json_space c then skip_ws s' else s
  end.

Definition hex_value (c : ascii) : option nat :=
  let n := nat_of_ascii c in
  if is_digit c then Some (n - 48)
  else if ((97 <=? n) && (n <=? 102))%nat then Some (n - 87)
  else if ((65 <=? n) && (n <=? 70))%nat then Some (n - 55)
  else None.

(** The character written [\e]. *)
Definition unescape (e : ascii) : option ascii :=
  if Ascii.eqb e dq then Some dq
  else if Ascii.eqb e "\" then Some "\"%char
  else if Ascii.eqb e "/" then Some "/"%char
  else if Ascii.eqb e "b" then Some "008"%char
  else if Ascii.eqb e "f" then Some "012"%char
  else if Ascii.eqb e "n" then Some nl
  else if Ascii.eqb e "r" then Some cr
  else if Ascii.eqb e "t" then Some "009"%char
  else None.

Definition push (c : ascii) (r : option (string * string)) : option (string * string) :=
  match r with
  | Some (s, rest) => Some (String c s, rest)
  | None => None
  end.

(** The string that starts after an opening quote, and the text after
    its closing quote.  Of the [\uXXXX] escapes those of the ASCII range
    are read. *)
Fixpoint scan_string (s : string) : option (string * string) :=
  match s with
  | "" => None
  | String c s' =>
      if Ascii.eqb c dq then Some ("", s')
      else if Ascii.eqb c "\" then
        match s' with
        | "" => None
        | String e s'' =>
            if Ascii.eqb e "u" then
              match s'' with
              | String h1 (String h2 (String h3 (String h4 s3))) =>
                  match hex_value h1, hex_value h2, hex_value h3, hex_value h4 with
                  | Some a, Some b, Some c', Some d =>
                      let n := ((a * 16 + b) * 16 + c') * 16 + d in
                      if (n <? 128)%nat then push (ascii_of_nat n) (scan_string s3)
                      else None
                  | _, _, _, _ => None
                  end
              | _ => None
              end
            else
              match unescape e with
              | Some c' => push c' (scan_string s'')
              | None => None
              end
        end
      else if (nat_of_ascii c <? 32)%nat then None
      else push c (scan_string s')
  end.

Fixpoint span (p : ascii -> bool) (s : string) : string * string :=
  match s with
  | "" => ("", "")
  | String c s' =>
      if p c then let (a, b) := span p s' in (String c a, b) else ("", s)
  end.

Definition number_char (c : ascii) : bool := is_digit c || Ascii.eqb c "-".

Definition float_char (c : ascii) : bool :=
  Ascii.eqb c "." || Ascii.eqb c "e" || Ascii.eqb c "E".

(** A text before which a number ends. *)
Definition ends_value (rest : string) : Prop :=
  first_is number_char rest = false /\ first_is float_char rest = false.

(** An integer, in the form [str] writes it. *)
Definition scan_number (s : string) : option (Z * string) :=
  let (lit, rest) := span number_char s in
  if first_is float_char rest then None
  else
    match NilZero.int_of_string lit with
    | Some d => if String.eqb (str (Z.of_int d)) lit then Some (Z.of_int d, rest) else None
    | None => None
    end.

Definition scan_value (s : string) : option (value * string) :=
  match s with
  | "" => None
  | String c s' =>
      if Ascii.eqb c dq then
        match scan_string s' with
        | Some (x, rest) => Some (VStr x, rest)
        | None => None
        end
      else
        match scan_number s with
        | Some (n, rest) => Some (VInt n, rest)
        | None => None
        end
  end.

(** The text after white space and the character [c]. *)
Definition expect (c : ascii) (s : string) : option string :=
  match skip_ws s with
  | "" => None
  | String d s' => if Ascii.eqb d c then Some s' else None
  end.

(** One member, [key: value], at the start of [s]. *)
Definition scan_member (s : string) : option ((string * value) * string) :=
  match expect dq s with
  | Some s1 =>
      match scan_string s1 with
      | Some (k, s2) =>
          match expect ":" s2 with
          | Some s3 =>
              match scan_value (skip_ws s3) with
              | Some (v, s4) => Some ((k, v), s4)
              | None => None
              end
          | None => None
          end
      | None => None
      end
  | None => None
  end.

(** The members of an object, to its closing brace. *)
Fixpoint scan_members (fuel : nat) (s : string)
  : option (list (string * value) * string) :=
  match fuel with
  | O => None
  | S fuel' =>
      match scan_member s with
      | Some (kv, s1) =>
          match expect "," s1 with
          | Some s2 =>
              match scan_members fuel' s2 with
              | Some (ms, rest) => Some (kv :: ms, rest)
              | None => None
              end
          | None =>
              match expect "}" s1 with
              | Some rest => Some ([kv], rest)
              | None => None
              end
          end
      | None => None
      end
  end.

(** An object, from its opening brace. *)
Definition scan_object (fuel : nat) (s : string)
  : option (list (string * value) * string) :=
  match expect "{" s with
  | Some s1 =>
      match expect "}" s1 with
      | Some rest => Some ([], rest)
      | None => scan_members fuel s1
      end
  | None => None
  end.

Definition no_entry : entry :=
  {| title := None; link := None; relevance := None; abstract := None;
     source := None; year := None |}.

(** [e[k] = v], for the keys and the types of an entry. *)
Definition set_item (e : entry) (kv : string * value) : option entry :=
  let (k, v) := kv in
  match v with
  | VStr s =>
      if String.eqb k "title" then
        Some {| title := Some s; link := link e; relevance := relevance e;
                abstract := abstract e; source := source e; year := year e |}
      else if String.eqb k "link" then
        Some {| title := title e; link := Some s; relevance := relevance e;
                abstract := abstract e; source := source e; year := year e |}
      else if String.eqb k "abstract" then
        Some {| title := title e; link := link e; relevance := relevance e;
                abstract := Some s; source := source e; year := year e |}
      else if String.eqb k "source" then
        Some {| title := title e; link := link e; relevance := relevance e;
                abstract := abstract e; source := Some s; year := year e |}
      else if String.eqb k "year" then
        Some {| title := title e; link := link e; relevance := relevance e;
                abstract := abstract e; source := source e; year := Some v |}
      else None
  | VInt n =>
      if String.eqb k "relevance" then
        Some {| title := title e; link := link e; relevance := Some n;
                abstract := abstract e; source := source e; year := year e |}
      else if String.eqb k "year" then
        Some {| title := title e; link := link e; relevance := relevance e;
                abstract := abstract e; source := source e; year := Some v |}
      else None
  end.

Fixpoint entry_of_items (e : entry) (ms : list (string * value)) : option entry :=
  match ms with
  | [] => Some e
  | kv :: ms' =>
      match set_item e kv with
      | Some e' => entry_of_items e' ms'
      | None => None
      end
  end.

(** The objects of a list, to its closing bracket. *)
Fixpoint scan_objects (fuel : nat) (size : nat) (s : string)
  : option (list entry * string) :=
  match fuel with
  | O => None
  | S fuel' =>
      match scan_object size s with
      | Some (ms, s1) =>
          match entry_of_items no_entry ms with
          | Some e =>
              match expect "," s1 with
              | Some s2 =>
                  match scan_objects fuel' size s2 with
                  | Some (es, rest) => Some (e :: es, rest)
                  | None => None
                  end
              | None =>
                  match expect "]" s1 with
                  | Some rest => Some ([e], rest)
                  | None => None
                  end
              end
          | None => None
          end
      | None => None
      end
  end.

Definition json_load (s : string) : option (list entry) :=
  let size := String.length s in
  match expect "[" s with
  | Some s1 =>
      match expect "]" s1 with
      | Some rest => if String.eqb (skip_ws rest) "" then Some [] else None
      | None =>
          match scan_objects size size s1 with
          | Some (es, rest) => if String.eqb (skip_ws rest) "" then Some es else None
          | None => None
          end
      end
  | None => None
  end.

(** The rows of a CSV text: fields between commas, rows ended by CR LF
    (or LF, or CR), and inside double quotes every character but the
    quote stands for itself, two quotes for one. *)
Inductive reading : Type :=
| Start       (* at the start of a field *)
| Plain       (* in a field without quotes *)
| Quoted      (* in a field in quotes *)
| QuoteSeen   (* after a quote in such a field *)
| AfterCR.    (* after the CR that ended a row *)

Record reader : Type := {
  state : reading;
  field : string;
  row : list string;
  rows : list (list string)
}.

(** A character met outside quotes. *)
Definition outside (r : reader) (c : ascii) : reader :=
  if Ascii.eqb c "," then
    {| state := Start; field := ""; row := (row r ++ [field r])%list; rows := rows r |}
  else if Ascii.eqb c cr then
    {| state := AfterCR; field := ""; row := [];
       rows := (rows r ++ [row r ++ [field r]])%list |}
  else if Ascii.eqb c nl then
    {| state := Start; field := ""; row := [];
       rows := (rows r ++ [row r ++ [field r]])%list |}
  else
    {| state := Plain; field := field r ++ String c ""; row := row r; rows := rows r |}.

Definition read_char (r : reader) (c : ascii) : reader :=
  match state r with
  | Start =>
      if Ascii.eqb c dq
      then {| state := Quoted; field := field r; row := row r; rows := rows r |}
      else outside r c
  | Plain => outside r c
  | Quoted =>
      if Ascii.eqb c dq
      then {| state := QuoteSeen; field := field r; row := row r; rows := rows r |}
      else {| state := Quoted; field := field r ++ String c ""; row := row r;
              rows := rows r |}
  | QuoteSeen =>
      if Ascii.eqb c dq
      then {| state := Quoted; field := field r ++ String dq ""; row := row r;
              rows := rows r |}
      else outside r c
  | AfterCR =>
      if Ascii.eqb c nl
      then {| state := Start; field := ""; row := []; rows := rows r |}
      else if Ascii.eqb c dq
      then {| state := Quoted; field := field r; row := row r; rows := rows r |}
      else outside r c
  end.

Fixpoint read (r : reader) (s : string) : reader :=
  match s with
  | "" => r
  | String c s' => read (read_char r c) s'
  end.

Definition at_row_start (r : reader) : bool :=
  match state r, field r, row r with
  | Start, "", [] => true
  | AfterCR, "", [] => true
  | _, _, _ => false
  end.

Definition csv_rows (s : string) : list (list string) :=
  let r := read {| state := Start; field := ""; row := []; rows := [] |} s in
  if at_row_start r then rows r else (rows r ++ [row r ++ [field r]])%list.

(** The reader with [x] as the field read so far. *)
Definition set_field (r : reader) (x : string) : reader :=
  {| state := state r; field := x; row := row r; rows := rows r |}.

Definition start_like (r : reader) : Prop :=
  (state r = Start \/ state r = AfterCR) /\ field r = "".

(** ** The blocks of a response

    A block in the format the prompt prescribes:
    [<number>. [<Title>](<URL>)], the relevance line and the abstract
    line, each ended by a newline. *)

Record block : Type := {
  ordinal : string;
  block_title : string;
  block_url : string;
  score : string;
  block_abstract : string
}.

Definition render (b : block) : string :=
  ordinal b ++ ". [" ++ block_title b ++ "](" ++ block_url b ++ ")" ++ NL ++
  "**Relevance:** " ++ score b ++ "/10" ++ NL ++
  "**Abstract:** " ++ block_abstract b ++ NL.

(** The same block, cut before the newline that ends its abstract. *)
Definition render_open (b : block) : string :=
  ordinal b ++ ". [" ++ block_title b ++ "](" ++ block_url b ++ ")" ++ NL ++
  "**Relevance:** " ++ score b ++ "/10" ++ NL ++
  "**Abstract:** " ++ block_abstract b.

Definition number (s : string) : bool :=
  negb (String.eqb s "") && all_chars is_digit s.

Definition blank (s : string) : bool := all_chars is_space s.

(** The fields of a conforming block: numbers for the ordinal and the
    score, a title without [']'], a URL without [')'], and every field
    on one line. *)
Definition conforming (b : block) : bool :=
  number (ordinal b) && number (score b)
  && all_chars (fun c => not_char "]" c && not_char nl c) (block_title b)
  && all_chars (fun c => not_char ")" c && not_char nl c) (block_url b)
  && all_chars (not_char nl) (block_abstract b).

(** A conforming block whose abstract is not blank. *)
Definition strict (b : block) : bool :=
  conforming b && negb (blank (block_abstract b)).

(** The entry head [\d+\.\s\[] matches at the start of [s]. *)
Fixpoint head_tail (s : string) : bool :=
  match s with
  | "" => false
  | String c s' =>
      if is_digit c then head_tail s'
      else Ascii.eqb c "." &&
           match s' with
           | String w (String b _) => is_space w && Ascii.eqb b "["
           | _ => false
           end
  end.

Definition head_at (s : string) : bool :=
  match s with
  | "" => false
  | String c s' => is_digit c && head_tail s'
  end.

(** A fragment: a text in which no entry head begins. *)
Fixpoint head_free (f : string) : bool :=
  negb (head_at f) &&
  match f with
  | "" => true
  | String _ f' => head_free f'
  end.

(** A response: blocks, each after a fragment, and a last fragment. *)
Fixpoint response (items : list (string * block)) (last : string) : string :=
  match items with
  | [] => last
  | (f, b) :: items' => f ++ render b ++ response items' last
  end.

Definition entry_of_block (b : block) : entry :=
  make_entry (block_title b) (block_url b) (int_acc 0 (score b)) (block_abstract b).

(** The groups the pattern captures in a strict block. *)
Definition groups_of (b : block) : list string :=
  [block_title b; block_url b; score b; lstrip (block_abstract b)].

(** Digits before a strict block are read as part of its ordinal. *)
Definition lengthen (n : string) (b : block) : block :=
  {| ordinal := n ++ ordinal b; block_title := block_title b;
     block_url := block_url b; score := score b;
     block_abstract := block_abstract b |}.

(** The number of newlines of a text. *)
Fixpoint newlines (s : string) : nat :=
  match s with
  | "" => 0
  | String c s' => (if Ascii.eqb c nl then 1 else 0) + newlines s'
  end.

(** What a successful [run] says about the text: the words of the
    pattern's language, with the groups they capture. *)
Fixpoint keep_all (inside : bool) (w : string) (r : option result) : option result :=
  match w with
  | "" => r
  | String a w' => keep inside a (keep_all inside w' r)
  end.

Fixpoint shape (p : list node) (inside : bool) (s : string) (r : result) : Prop :=
  match p with
  | [] => r = ([], s)
  | Open :: k => shape k true s r
  | Close :: k => exists gs rest, shape k false s (gs, rest) /\ r = ("" :: gs, rest)
  | Atom c Once :: k =>
      exists a s' r', s = String a s' /\ matches c a = true /\
        shape k inside s' r' /\ keep inside a (Some r') = Some r
  | Atom c Greedy1 :: k =>
      exists a w s' r', s = String a (w ++ s') /\ matches c a = true /\
        all_chars (matches c) w = true /\
        shape k inside s' r' /\ keep_all inside (String a w) (Some r') = Some r
  | Atom c _ :: k =>
      exists w s' r', s = w ++ s' /\ all_chars (matches c) w = true /\
        shape k inside s' r' /\ keep_all inside w (Some r') = Some r
  end.

(** The literal characters of a pattern. *)
Definition lits (w : string) : list node :=
  map (fun c => Atom (Lit c) Once) (list_ascii_of_string w).

(** The pattern, piece by piece: the entry head, the title, the URL, the
    relevance line and the abstract line. *)
Definition abstract_nodes : list node :=
  Atom Space Greedy0 :: Open :: Atom AnyChar Lazy0 :: Close :: lits NL.

Definition score_nodes (k : list node) : list node :=
  Atom Space Greedy0 :: Open :: Atom Digit Greedy1 :: Close ::
  lits ("/10" ++ NL ++ "**Abstract:**") ++ k.

Definition url_nodes (k : list node) : list node :=
  Open :: Atom AnyChar Lazy0 :: Close :: lits ")" ++
  Atom Space Greedy0 :: lits (NL ++ "**Relevance:**") ++ k.

Definition title_nodes (k : list node) : list node :=
  Open :: Atom AnyChar Lazy0 :: Close :: lits "](" ++ k.

Definition head_nodes (k : list node) : list node :=
  Atom Digit Greedy1 :: lits "." ++ Atom Space Once :: lits "[" ++ k.

(** An item of a response whose block is strict. *)
Definition item_ok (fb : string * block) : bool :=
  head_free (fst fb) && strict (snd fb).

(** The entry made from the groups of a match. *)
Definition entry_of_match (g : list string) (e : entry) : Prop :=
  exists t u sc a,
    g = [t; u; sc; a] /\ number sc = true /\
    e = make_entry t u (int_acc 0 sc) a.

(** Sample responses. *)
Definition block_a : block :=
  {| ordinal := "1"; block_title := " Deep Learning Survey ";
     block_url := "http://x.org/a"; score := "9";
     block_abstract := "A survey.  " |}.

Definition block_b : block :=
  {| ordinal := "2"; block_title := "Graphs"; block_url := "";
     score := "7"; block_abstract := "b" |}.

Definition block_blank : block :=
  {| ordinal := "1"; block_title := "A"; block_url := "u";
     score := "5"; block_abstract := "" |}.


Definition sample_items : list (string * block) :=
  [("Here are the top 2 articles:" ++ NL ++ NL, block_a); (NL, block_b)].

Definition returning (text : string) (prompt : string) : outcome := Returns text.
Definition raising (exc : string) (prompt : string) : outcome := Raises exc.

(** ** The command line: [read_query_text] and [main]

    [args] is the namespace [parse_args] returns.  The files are a
    function from a path to the text [read()] returns for it, [None]
    when [open] fails; writing is recorded, not performed. *)

Record namespace : Type := {
  query : option string;
  input_file : option string;
  results : Z;
  sort : string;
  output : option string
}.

Inductive exn : Type :=
| NoPath                       (* TypeError: open(None) *)
| CannotOpen (path : string)   (* OSError of open(path) *)
| KeyError.                    (* a key that [format_md] does not find *)

(** The value of an optional text that is true: present and not empty. *)
Definition if_true (o : option string) : option string :=
  match o with
  | Some "" => None
  | other => other
  end.

Definition read_query_text (args : namespace) (files : string -> option string)
  : exn + string :=
  match if_true (query args) with
  | Some q => inr (strip q)
  | None =>
      match input_file args with
      | None => inl NoPath
      | Some path =>
          match files path with
          | Some text => inr (strip text)
          | None => inl (CannotOpen path)
          end
      end
  end.

(** The text before and after the last [a] of [s]. *)
Fixpoint rsplit (a : ascii) (s : string) : option (string * string) :=
  match s with
  | "" => None
  | String c s' =>
      match rsplit a s' with
      | Some (before, after) => Some (String c before, after)
      | None => if Ascii.eqb c a then Some ("", s') else None
      end
  end.

(** [os.path.splitext(p)[1]] with [/] as the separator: the text from the
    last dot of the last component, unless only dots come before it. *)
Definition extension (p : string) : string :=
  let name := match rsplit "/" p with
              | Some (_, after) => after
              | None => p
              end in
  match rsplit "." name with
  | Some (stem, ext) => if all_chars (fun c => Ascii.eqb c ".") stem then "" else String "." ext
  | None => ""
  end.

(** [str.lower] on the ASCII range. *)
Definition lower_char (c : ascii) : ascii :=
  let n := nat_of_ascii c in
  if ((65 <=? n) && (n <=? 90))%nat then ascii_of_nat (n + 32) else c.

Fixpoint lower (s : string) : string :=
  match s with
  | "" => ""
  | String c s' => String (lower_char c) (lower s')
  end.

(** What a run leaves: the text printed, and the files written. *)
Record effects : Type := {
  stdout : string;
  written : list (string * string)
}.

(** [print(s)]. *)
Definition print (s : string) : string := s ++ NL.

Definition note : string :=
  NL ++ "*Note: Google Scholar does not allow for API access so results are inferred using Google Gemini 2.5 Pro and may not reflect actual listings.*" ++ NL.

Definition main (args : namespace) (generate_content : string -> outcome)
    (files : string -> option string) : exn + effects :=
  match read_query_text args files with
  | inl e => inl e
  | inr query_text =>
      let gemini_results :=
        gemini_scholar_search generate_content query_text (results args) in
      let all_results := sort_results (sort args) gemini_results in
      match if_true (output args) with
      | Some path =>
          let ext := lower (extension path) in
          let saved := print (NL ++ "Saved to " ++ path ++ NL) in
          if String.eqb ext ".json" then
            inr {| stdout := saved; written := [(path, write_json all_results)] |}
          else if String.eqb ext ".csv" then
            inr {| stdout := saved; written := [(path, write_csv all_results)] |}
          else
            match format_md all_results with
            | Some md =>
                inr {| stdout := saved;
                       written := [(path, "# Research Results" ++ NL ++ NL ++ md)] |}
            | None => inl KeyError
            end
      | None =>
          match format_md all_results with
          | Some md =>
              inr {| stdout := print ("# Research Results" ++ NL) ++ print md ++ print note;
                     written := [] |}
          | None => inl KeyError
          end
      end
  end.

(** The keys [format_md] reads with [e[...]]. *)
Definition has_md_keys (e : entry) : bool :=
  match title e, link e, relevance e, abstract e with
  | Some _, Some _, Some _, Some _ => true
  | _, _, _, _ => false
  end.

(** The same namespace, without [--query]. *)
Definition without_query (args : namespace) : namespace :=
  {| query := None; input_file := input_file args; results := results args;
     sort := sort args; output := output args |}.

(** [shape], with [K] for what comes after the nodes. *)
Fixpoint shape_then (K : bool -> string -> result -> Prop) (p : list node)
    (inside : bool) (s : string) (r : result) : Prop :=
  match p with
  | [] => K inside s r
  | Open :: k => shape_then K k true s r
  | Close :: k =>
      exists gs rest, shape_then K k false s (gs, rest) /\ r = ("" :: gs, rest)
  | Atom c Once :: k =>
      exists a s' r', s = String a s' /\ matches c a = true /\
        shape_then K k inside s' r' /\ keep inside a (Some r') = Some r
  | Atom c Greedy1 :: k =>
      exists a w s' r', s = String a (w ++ s') /\ matches c a = true /\
        all_chars (matches c) w = true /\
        shape_then K k inside s' r' /\ keep_all inside (String a w) (Some r') = Some r
  | Atom c _ :: k =>
      exists w s' r', s = w ++ s' /\ all_chars (matches c) w = true /\
        shape_then K k inside s' r' /\ keep_all inside w (Some r') = Some r
  end.

(** The pattern before the abstract line. *)
Definition entry_nodes : list node :=
  head_nodes (title_nodes (url_nodes (score_nodes []))).

(** [s[k:]]. *)
Fixpoint drop (k : nat) (s : string) : string :=
  match k, s with
  | S k', String _ s' => drop k' s'
  | _, _ => s
  end.

(** The five fields [write_csv] writes for an entry. *)
Definition cells (e : entry) : list string := map (cell e) fieldnames.

(** The last component of a path has a character that is not a dot. *)
Definition named (stem : string) : bool :=
  let name := match rsplit "/" stem with
              | Some (_, after) => after
              | None => stem
              end in
  negb (all_chars (fun c => Ascii.eqb c ".") name).

(** A text without dot and without slash. *)
Definition plain_name (e : string) : bool :=
  all_chars (fun c => not_char "." c && not_char "/" c) e.

(** The sorted results of a run. *)
Definition results_of (args : namespace) (generate_content : string -> outcome)
    (query_text : string) : list entry :=
  sort_results (sort args)
    (gemini_scholar_search generate_content query_text (results args)).

(** Sample arguments. *)
Definition sample_args (output : option string) : namespace :=
  {| query := Some " deep learning "; input_file := None; results := 2;
     sort := "relevance"; output := output |}.

(** ** The limit on the digits of a converted integer

    CPython converts an integer to a decimal text, and a decimal text to
    an integer, only up to [sys.get_int_max_str_digits()] digits, 4300
    unless the limit is changed, and raises [ValueError] beyond.  [str]
    and [int] above stand for the conversions within the limit; the
    statements about texts and integers of any size say so. *)

Definition max_str_digits : nat := 4300.

(** [str(n)] is within the limit. *)
Definition within_limit (n : Z) : bool :=
  (String.length (str (Z.abs n)) <=? max_str_digits)%nat.


Definition relevance_fits (e : entry) : bool :=
  match relevance e with
  | Some r => within_limit r
  | None => true
  end.

Definition numbers_fit (e : entry) : bool :=
  relevance_fits e &&
  match year e with
  | Some (VInt y) => within_limit y
  | _ => true
  end.

Definition with_year : entry :=
  {| title := Some "T"; link := None; relevance := Some 7%Z;
     abstract := Some "a"; source := Some "gemini";
     year := Some (VInt 2020) |}.

Definition without_title : entry :=
  {| title := None; link := Some "u"; relevance := Some 7%Z;
     abstract := Some "a"; source := Some "gemini"; year := None |}.

(** ** ASCII texts

    [str.isascii()]: every character of the text is below 128.  On such
    a text [\d] and [\s], [str.strip] and [int] are the classes and
    functions written above, character for character. *)

Definition isascii (s : string) : bool :=
  all_chars (fun c => (nat_of_ascii c <? 128)%nat) s.

(** The score of a block is within the limit on digits. *)
Definition score_fits (b : block) : bool :=
  (String.length (score b) <=? max_str_digits)%nat.


(** A fragment that begins like an entry and stops in its title. *)
Definition broken_head : string := "1. [Broken" ++ NL.

(** ** Reading the Markdown text back

    The text [format_md] writes has the format the prompt prescribes,
    so the extractor can read it. *)

(** An entry as the extractor makes them, whose fields survive the
    Markdown text: every field in ASCII, on one line and without outer
    white space, no [']'] in the title, no [')'] in the link, a relevance
    that is not negative and within the limit on digits, and an abstract
    that is not blank. *)
Definition readable (e : entry) : bool :=
  match title e, link e, relevance e, abstract e, source e, year e with
  | Some t, Some l, Some r, Some a, Some s, None =>
      isascii t && isascii l && isascii a
      && all_chars (fun c => not_char "]" c && not_char nl c) t
      && String.eqb (strip t) t
      && all_chars (fun c => not_char ")" c && not_char nl c) l
      && String.eqb (strip l) l
      && (0 <=? r)%Z
      && within_limit r
      && all_chars (not_char nl) a
      && negb (blank a)
      && String.eqb (strip a) a
      && String.eqb s "gemini"
  | _, _, _, _, _, _ => false
  end.

(** The entry with [link or '#'] for its link. *)
Definition hashed (e : entry) : entry :=
  {| title := title e;
     link := option_map link_or_hash (link e);
     relevance := relevance e;
     abstract := abstract e;
     source := source e;
     year := year e |}.

(** The block [format_md] writes for the entry at position [idx]. *)
Definition block_of (idx : Z) (e : entry) : block :=
  {| ordinal := str idx;
     block_title := text_of (title e);
     block_url := link_or_hash (text_of (link e));
     score := number_of (relevance e);
     block_abstract := text_of (abstract e) |}.

Fixpoint md_items (before : string) (idx : Z) (es : list entry)
  : list (string * block) :=
  match es with
  | [] => []
  | e :: es' => (before, block_of idx e) :: md_items NL (idx + 1) es'
  end.

Definition readable_entries : list entry :=
  [ {| title := Some "Deep Learning Survey"; link := Some "http://x.org/a";
       relevance := Some 9%Z; abstract := Some "A survey.";
       source := Some "gemini"; year := None |};
    {| title := Some "Graphs"; link := Some "";
       relevance := Some 10%Z; abstract := Some "b";
       source := Some "gemini"; year := None |} ].

Definition readable_markdown : string :=
  "1. [Deep Learning Survey](http://x.org/a)" ++ NL ++
  "**Relevance:** 9/10" ++ NL ++
  "**Abstract:** A survey." ++ NL ++ NL ++
  "2. [Graphs](#)" ++ NL ++
  "**Relevance:** 10/10" ++ NL ++
  "**Abstract:** b" ++ NL.

(** * Proofs *)

(** ** Strings *)

Lemma append_nil_r (s : string) : s ++ "" = s.
Proof. induction s; simpl; congruence. Qed.

Lemma append_assoc (a b c : string) : (a ++ b) ++ c = a ++ b ++ c.
Proof. induction a; simpl; congruence. Qed.

Lemma length_append (a b : string) :
  String.length (a ++ b) = String.length a + String.length b.
Proof. induction a; simpl; auto. Qed.

Lemma all_chars_app p a b :
  all_chars p (a ++ b) = all_chars p a && all_chars p b.
Proof. induction a; simpl; auto. rewrite IHa. apply andb_assoc. Qed.

Lemma all_chars_weaken (p q : ascii -> bool) s :
  (forall c, p c = true -> q c = true) ->
  all_chars p s = true -> all_chars q s = true.
Proof.
  intros Hpq. induction s; simpl; auto.
  intros H. apply andb_true_iff in H as [H1 H2].
  rewrite (Hpq _ H1). simpl. auto.
Qed.

Lemma digit_not_space c : is_digit c = true -> is_space c = false.
Proof.
  unfold is_digit, is_space. intros H.
  apply andb_true_iff in H as [H1 H2].
  apply Nat.leb_le in H1. apply Nat.leb_le in H2.
  apply orb_false_iff. split; apply andb_false_iff.
  - right. apply Nat.leb_gt. lia.
  - right. apply Nat.leb_gt. lia.
Qed.

(** ** The engine: sufficient conditions for a match *)

Lemma keep_false a r : keep false a r = r.
Proof. reflexivity. Qed.

Lemma greedy_run c k w s r :
  all_chars (matches c) w = true ->
  first_is (matches c) s = false ->
  k s = Some r ->
  greedy c k false (w ++ s) = Some r.
Proof.
  intros Hw Hs Hk. induction w as [|a w IH]; simpl in *.
  - destruct s as [|b s]; simpl in *; auto. rewrite Hs. auto.
  - apply andb_true_iff in Hw as [Ha Hw]. rewrite Ha, (IH Hw). reflexivity.
Qed.

Lemma greedy_run_inside c k w s g gs rest :
  all_chars (matches c) w = true ->
  first_is (matches c) s = false ->
  k s = Some (g :: gs, rest) ->
  greedy c k true (w ++ s) = Some ((w ++ g) :: gs, rest).
Proof.
  intros Hw Hs Hk. induction w as [|a w IH]; simpl in *.
  - destruct s as [|b s]; simpl in *; auto. rewrite Hs. auto.
  - apply andb_true_iff in Hw as [Ha Hw]. rewrite Ha, (IH Hw). reflexivity.
Qed.

Lemma lazy_run_inside (p : ascii -> bool) c k w s g gs rest :
  (forall a t, p a = true -> k (String a t) = None) ->
  all_chars p w = true ->
  all_chars (matches c) w = true ->
  k s = Some (g :: gs, rest) ->
  lazy c k true (w ++ s) = Some ((w ++ g) :: gs, rest).
Proof.
  intros Hk Hp Hw Hs. induction w as [|a w IH].
  - simpl. destruct s; simpl; rewrite Hs; reflexivity.
  - simpl in Hp, Hw.
    apply andb_true_iff in Hp as [Hpa Hp].
    apply andb_true_iff in Hw as [Ha Hw].
    change (String a w ++ s) with (String a (w ++ s)).
    simpl. rewrite (Hk _ _ Hpa), Ha, (IH Hp Hw). reflexivity.
Qed.

Lemma pattern_pieces :
  pattern = head_nodes (title_nodes (url_nodes (score_nodes abstract_nodes))).
Proof. reflexivity. Qed.

Lemma first_is_app p a b :
  first_is p a = false -> a <> "" -> first_is p (a ++ b) = false.
Proof. destruct a; simpl; congruence. Qed.

Lemma lstrip_split s :
  exists w, s = w ++ lstrip s /\ all_chars is_space w = true.
Proof.
  induction s as [|c s [w [E Hw]]]; simpl.
  - exists "". auto.
  - destruct (is_space c) eqn:Hc.
    + exists (String c w). simpl. rewrite Hc, Hw. split; [f_equal; exact E | reflexivity].
    + exists "". auto.
Qed.

Lemma lstrip_first s : first_is is_space (lstrip s) = false.
Proof.
  induction s as [|c s IH]; simpl; auto.
  destruct (is_space c) eqn:Hc; simpl; auto.
Qed.

Lemma lstrip_blank s : lstrip s = "" -> blank s = true.
Proof.
  unfold blank. induction s as [|c s IH]; simpl; auto.
  destruct (is_space c); simpl; auto. intros H. discriminate H.
Qed.

Lemma not_blank_lstrip s : blank s = false -> lstrip s <> "".
Proof. intros H E. apply lstrip_blank in E. congruence. Qed.

(** The abstract line. *)
Lemma run_abstract w a rest :
  all_chars is_space w = true ->
  first_is is_space a = false -> a <> "" ->
  all_chars (not_char nl) a = true ->
  run abstract_nodes false (w ++ a ++ NL ++ rest) = Some ([a], rest).
Proof.
  intros Hw Ha Hne Hnl. unfold abstract_nodes. simpl run.
  apply greedy_run; auto.
  - apply first_is_app; auto.
  - replace [a] with [a ++ ""] by (rewrite append_nil_r; reflexivity).
    apply lazy_run_inside with (p := not_char nl); auto.
    + intros c t Hc. unfold not_char in Hc. apply negb_true_iff in Hc.
      rewrite Hc. reflexivity.
    + apply all_chars_weaken with (p := not_char nl); auto.
Qed.

Lemma number_inv s :
  number s = true ->
  exists d s', s = String d s' /\ is_digit d = true /\ all_chars is_digit s' = true.
Proof.
  unfold number. destruct s as [|d s']; simpl; [discriminate|].
  intros H. apply andb_true_iff in H as [Hd Hs]. eauto.
Qed.

(** The relevance line, from the white space before the score. *)
Lemma run_score k w sc x gs rest :
  all_chars is_space w = true ->
  number sc = true ->
  run k false x = Some (gs, rest) ->
  run (score_nodes k) false (w ++ sc ++ "/10" ++ NL ++ "**Abstract:**" ++ x)
  = Some (sc :: gs, rest).
Proof.
  intros Hw Hsc Hk. apply number_inv in Hsc as [d [sc' [-> [Hd Hsc]]]].
  unfold score_nodes. simpl run.
  apply greedy_run; auto.
  - simpl. apply digit_not_space; auto.
  - simpl. rewrite Hd.
    erewrite greedy_run_inside with (g := "") (gs := gs) (rest := rest); auto.
    + simpl. rewrite append_nil_r. reflexivity.
    + simpl. rewrite Hk. reflexivity.
Qed.

Lemma not_char_fails a c : not_char a c = true -> Ascii.eqb c a = false.
Proof. unfold not_char. apply negb_true_iff. Qed.

Lemma all_chars_any w : all_chars (matches AnyChar) w = true.
Proof. induction w; simpl; auto. Qed.

(** The URL and the end of the first line. *)
Lemma run_url k u x gs rest :
  all_chars (not_char ")") u = true ->
  run k false x = Some (gs, rest) ->
  run (url_nodes k) false (u ++ ")" ++ NL ++ "**Relevance:**" ++ x)
  = Some (u :: gs, rest).
Proof.
  intros Hu Hk. unfold url_nodes. simpl run.
  replace (u :: gs) with ((u ++ "") :: gs) by (rewrite append_nil_r; reflexivity).
  apply lazy_run_inside with (p := not_char ")"); auto using all_chars_any.
  - intros c t Hc. apply not_char_fails in Hc. rewrite Hc. reflexivity.
  - simpl. rewrite Hk. reflexivity.
Qed.

(** The title. *)
Lemma run_title k t x gs rest :
  all_chars (not_char "]") t = true ->
  run k false x = Some (gs, rest) ->
  run (title_nodes k) false (t ++ "](" ++ x) = Some (t :: gs, rest).
Proof.
  intros Ht Hk. unfold title_nodes. simpl run.
  replace (t :: gs) with ((t ++ "") :: gs) by (rewrite append_nil_r; reflexivity).
  apply lazy_run_inside with (p := not_char "]"); auto using all_chars_any.
  - intros c s Hc. apply not_char_fails in Hc. rewrite Hc. reflexivity.
  - simpl. rewrite Hk. reflexivity.
Qed.

(** The entry head. *)
Lemma run_head k n x r :
  number n = true ->
  run k false x = Some r ->
  run (head_nodes k) false (n ++ ". [" ++ x) = Some r.
Proof.
  intros Hn Hk. apply number_inv in Hn as [d [n' [-> [Hd Hn]]]].
  unfold head_nodes. simpl. rewrite Hd.
  apply greedy_run; auto.
Qed.

Lemma all_chars_and p q s :
  all_chars (fun c => p c && q c) s = all_chars p s && all_chars q s.
Proof.
  induction s as [|c s IH]; simpl; auto. rewrite IH.
  destruct (p c), (q c), (all_chars p s); reflexivity.
Qed.

Lemma conforming_inv b :
  conforming b = true ->
  number (ordinal b) = true /\ number (score b) = true /\
  all_chars (not_char "]") (block_title b) = true /\
  all_chars (not_char nl) (block_title b) = true /\
  all_chars (not_char ")") (block_url b) = true /\
  all_chars (not_char nl) (block_url b) = true /\
  all_chars (not_char nl) (block_abstract b) = true.
Proof.
  unfold conforming. rewrite !all_chars_and, !andb_true_iff. tauto.
Qed.

(** A strict block is matched from its first character to its last, and
    the groups are its title, its URL, its score and its abstract
    without the white space before it. *)
Lemma run_block b rest :
  strict b = true ->
  run pattern false (render b ++ rest)
  = Some ([block_title b; block_url b; score b; lstrip (block_abstract b)], rest).
Proof.
  unfold strict. intros H. apply andb_true_iff in H as [Hc Hb].
  apply negb_true_iff in Hb.
  apply conforming_inv in Hc as (Hn & Hs & Ht & _ & Hu & _ & Ha).
  destruct (lstrip_split (block_abstract b)) as [w [E Hw]].
  rewrite pattern_pieces. unfold render.
  rewrite !append_assoc.
  apply run_head; auto.
  apply run_title; auto.
  apply run_url; auto.
  change ("**Relevance:** " ++ ?x) with ("**Relevance:**" ++ " " ++ x).
  apply (run_score abstract_nodes " "); auto.
  rewrite E at 1. rewrite !append_assoc.
  apply (run_abstract (String " " w)).
  - simpl. exact Hw.
  - apply lstrip_first.
  - apply not_blank_lstrip; auto.
  - rewrite E, all_chars_app in Ha. apply andb_true_iff in Ha. tauto.
Qed.

(** ** The engine: what a match implies *)

Lemma keep_some i a r : exists r', keep i a (Some r) = Some r'.
Proof. destruct i, r as [[|g gs] rest]; simpl; eauto. Qed.

Lemma keep_none i a : keep i a None = None.
Proof. destruct i; reflexivity. Qed.

Lemma keep_all_false w r : keep_all false w r = r.
Proof. induction w; simpl; auto. Qed.

Lemma keep_all_true w g gs rest :
  keep_all true w (Some (g :: gs, rest)) = Some ((w ++ g) :: gs, rest).
Proof. induction w as [|a w IH]; simpl; auto. rewrite IH. reflexivity. Qed.

Section Loops.
Variables (c : cclass) (k : string -> option result) (i : bool).
Variable Q : string -> result -> Prop.
Hypothesis k_Q : forall s r, k s = Some r -> Q s r.

Lemma greedy_shape s r :
  greedy c k i s = Some r ->
  exists w s' r', s = w ++ s' /\ all_chars (matches c) w = true /\
    Q s' r' /\ keep_all i w (Some r') = Some r.
Proof.
  revert r. induction s as [|a s IH]; intros r H.
  - exists "", "", r. simpl in *. auto.
  - simpl in H. destruct (matches c a) eqn:Ha.
    + destruct (greedy c k i s) as [r1|] eqn:Hg.
      * destruct (IH _ eq_refl) as (w & s' & r' & E & Hw & Hq & Hkeep).
        destruct (keep_some i a r1) as [r2 Hr2]. rewrite Hr2 in H.
        injection H as <-.
        exists (String a w), s', r'. simpl. rewrite Ha, Hw, Hkeep.
        split; [congruence | auto].
      * rewrite keep_none in H. exists "", (String a s), r. simpl. auto.
    + exists "", (String a s), r. simpl. auto.
Qed.

Lemma lazy_shape s r :
  lazy c k i s = Some r ->
  exists w s' r', s = w ++ s' /\ all_chars (matches c) w = true /\
    Q s' r' /\ keep_all i w (Some r') = Some r.
Proof.
  revert r. induction s as [|a s IH]; intros r H.
  - simpl in H. destruct (k "") as [r0|] eqn:Hk; [|discriminate].
    injection H as <-. exists "", "", r0. simpl. auto.
  - simpl in H. destruct (k (String a s)) as [r0|] eqn:Hk.
    + injection H as <-. exists "", (String a s), r0. simpl. auto.
    + destruct (matches c a) eqn:Ha; [|discriminate].
      destruct (lazy c k i s) as [r1|] eqn:Hl.
      * destruct (IH _ eq_refl) as (w & s' & r' & E & Hw & Hq & Hkeep).
        exists (String a w), s', r'. simpl. rewrite Ha, Hw, Hkeep.
        split; [congruence | auto].
      * rewrite keep_none in H. discriminate.
Qed.
End Loops.

(** The engine is sound for [shape]. *)
Lemma run_shape p : forall i s r, run p i s = Some r -> shape p i s r.
Proof.
  induction p as [|n p IH]; intros i s r H.
  - simpl in *. congruence.
  - destruct n as [c q| |].
    + destruct q; simpl in H.
      * destruct s as [|a s]; [discriminate|].
        destruct (matches c a) eqn:Ha; [|discriminate].
        destruct (run p i s) as [r'|] eqn:Hr;
          [|rewrite keep_none in H; discriminate].
        simpl. exists a, s, r'. auto.
      * simpl. apply (greedy_shape c (run p i) i (shape p i)); auto.
      * destruct s as [|a s]; [discriminate|].
        destruct (matches c a) eqn:Ha; [|discriminate].
        destruct (greedy c (run p i) i s) as [r1|] eqn:Hg;
          [|rewrite keep_none in H; discriminate].
        destruct (greedy_shape c (run p i) i (shape p i) (IH i) s r1 Hg)
          as (w & s' & r' & E & Hw & Hq & Hkeep).
        simpl. exists a, w, s', r'. rewrite Hkeep. subst s. auto.
      * simpl. apply (lazy_shape c (run p i) i (shape p i)); auto.
    + simpl in *. auto.
    + simpl in *. destruct (run p false s) as [[gs rest]|] eqn:Hr; [|discriminate].
      injection H as <-. eauto.
Qed.

Ltac break :=
  repeat match goal with
  | H : exists _, _ |- _ => destruct H
  | H : _ /\ _ |- _ => destruct H
  | H : Ascii.eqb _ _ = true |- _ => apply Ascii.eqb_eq in H
  | H : keep false _ _ = _ |- _ => rewrite keep_false in H
  | H : keep_all false _ _ = _ |- _ => rewrite keep_all_false in H
  | H : keep_all true _ (Some (_ :: _, _)) = _ |- _ => rewrite keep_all_true in H
  | H : Some _ = Some _ |- _ => injection H as H
  | H : (_, _) = (_, _) |- _ => injection H as ? ?
  | H : _ = (_, _) |- _ => subst
  | H : _ = ?x |- _ => is_var x; subst x
  | H : ?x = _ |- _ => is_var x; subst x
  end.

Ltac open_shape H :=
  cbv [head_nodes title_nodes url_nodes score_nodes abstract_nodes lits
       list_ascii_of_string map app append NL] in H;
  cbn [shape matches] in H;
  break.

Lemma shape_head k s r :
  shape (head_nodes k) false s r ->
  exists n c x, s = n ++ "." ++ String c ("[" ++ x) /\
    number n = true /\ is_space c = true /\ shape k false x r.
Proof.
  intros H. open_shape H.
  match goal with
  | |- exists n c x, String ?a (?w ++ String _ (String ?c0 (String _ ?x0))) = _ /\ _ =>
      exists (String a w), c0, x0
  end.
  unfold number. simpl. repeat split; auto. apply andb_true_iff; auto.
Qed.

Lemma shape_title k s gs rest :
  shape (title_nodes k) false s (gs, rest) ->
  exists t x gs', s = t ++ "](" ++ x /\ gs = t :: gs' /\
    shape k false x (gs', rest).
Proof.
  intros H. open_shape H. rewrite append_nil_r.
  match goal with
  | |- exists t x gs', ?w ++ String _ (String _ ?x0) = _ /\ _ :: ?g = _ /\ _ =>
      exists w, x0, g
  end.
  auto.
Qed.

Lemma shape_url k s gs rest :
  shape (url_nodes k) false s (gs, rest) ->
  exists u w x gs', s = u ++ ")" ++ w ++ NL ++ "**Relevance:**" ++ x /\
    blank w = true /\ gs = u :: gs' /\ shape k false x (gs', rest).
Proof.
  intros H. open_shape H. rewrite append_nil_r.
  match goal with
  | Hk : shape k false ?x0 (?g, _)
    |- exists u w x gs', ?u0 ++ String _ (?w0 ++ _) = _ /\ _ =>
      exists u0, w0, x0, g
  end.
  auto.
Qed.

Lemma shape_score k s gs rest :
  shape (score_nodes k) false s (gs, rest) ->
  exists w sc x gs', s = w ++ sc ++ "/10" ++ NL ++ "**Abstract:**" ++ x /\
    blank w = true /\ number sc = true /\ gs = sc :: gs' /\
    shape k false x (gs', rest).
Proof.
  intros H. open_shape H. rewrite append_nil_r.
  match goal with
  | Hk : shape k false ?x0 (?g, _)
    |- exists w sc x gs', ?w0 ++ String ?a (?d ++ _) = _ /\ _ =>
      exists w0, (String a d), x0, g
  end.
  unfold number. simpl. repeat split; auto. apply andb_true_iff; auto.
Qed.

Lemma shape_abstract s gs rest :
  shape abstract_nodes false s (gs, rest) ->
  exists w a, s = w ++ a ++ NL ++ rest /\ blank w = true /\ gs = [a].
Proof.
  intros H. open_shape H. rewrite append_nil_r.
  match goal with
  | |- exists w a, ?w0 ++ ?a0 ++ _ = _ /\ _ => exists w0, a0
  end.
  auto.
Qed.

(** Every match of the pattern, read off the text. *)
Lemma pattern_inv s gs rest :
  run pattern false s = Some (gs, rest) ->
  exists n c t u w1 w2 sc w3 a,
    s = n ++ "." ++ String c ("[" ++ t ++ "](" ++ u ++ ")" ++ w1 ++ NL ++
        "**Relevance:**" ++ w2 ++ sc ++ "/10" ++ NL ++
        "**Abstract:**" ++ w3 ++ a ++ NL ++ rest)
    /\ number n = true /\ is_space c = true /\ blank w1 = true
    /\ blank w2 = true /\ number sc = true /\ blank w3 = true
    /\ gs = [t; u; sc; a].
Proof.
  intros H. apply run_shape in H. rewrite pattern_pieces in H.
  apply shape_head in H as (n & c & x1 & -> & Hn & Hc & H).
  apply shape_title in H as (t & x2 & g2 & -> & -> & H).
  apply shape_url in H as (u & w1 & x3 & g3 & -> & Hw1 & -> & H).
  apply shape_score in H as (w2 & sc & x4 & g4 & -> & Hw2 & Hsc & -> & H).
  apply shape_abstract in H as (w3 & a & -> & Hw3 & ->).
  exists n, c, t, u, w1, w2, sc, w3, a. repeat split; auto.
Qed.

(** ** Scanning *)

Lemma scan_skip p w rest :
  scan p (String.length w) (w ++ rest) = scan p 0 rest.
Proof. induction w; simpl; auto. Qed.

Lemma scan_match p c m rest gs :
  run p false (String c m ++ rest) = Some (gs, rest) ->
  scan p 0 (String c m ++ rest) = gs :: scan p 0 rest.
Proof.
  change (String c m ++ rest) with (String c (m ++ rest)).
  intros H. cbn [scan]. rewrite H. f_equal.
  cbn [String.length]. rewrite length_append.
  replace (S (String.length m + String.length rest) - String.length rest - 1)
    with (String.length m) by lia.
  apply scan_skip.
Qed.

Lemma scan_fail p c s :
  run p false (String c s) = None -> scan p 0 (String c s) = scan p 0 s.
Proof. intros H. simpl. rewrite H. reflexivity. Qed.

Lemma head_tail_intro n c x :
  all_chars is_digit n = true -> is_space c = true ->
  head_tail (n ++ "." ++ String c ("[" ++ x)) = true.
Proof.
  intros Hn Hc. induction n as [|d n IH]; simpl in *.
  - rewrite Hc. reflexivity.
  - apply andb_true_iff in Hn as [Hd Hn]. rewrite Hd. auto.
Qed.

Lemma head_at_intro n c x :
  number n = true -> is_space c = true ->
  head_at (n ++ "." ++ String c ("[" ++ x)) = true.
Proof.
  intros Hn Hc. apply number_inv in Hn as (d & n' & -> & Hd & Hn).
  simpl. rewrite Hd. simpl. apply head_tail_intro; auto.
Qed.

(** A match begins with an entry head. *)
Lemma head_needed s r : run pattern false s = Some r -> head_at s = true.
Proof.
  destruct r as [gs rest]. intros H.
  apply pattern_inv in H as (n & c & t & u & w1 & w2 & sc & w3 & a & -> & Hn & Hc & _).
  apply head_at_intro; auto.
Qed.

Lemma no_head_no_match s : head_at s = false -> run pattern false s = None.
Proof.
  intros H. destruct (run pattern false s) eqn:E; auto.
  apply head_needed in E. congruence.
Qed.

(** A head that begins in a fragment and ends in the text after it, a
    text that starts with a digit, has only digits in the fragment. *)
Lemma head_tail_across f rest :
  head_tail f = false -> first_is is_digit rest = true ->
  head_tail (f ++ rest) = true -> all_chars is_digit f = true.
Proof.
  intros Hf Hr. induction f as [|a f IH]; simpl in *; auto.
  destruct (is_digit a) eqn:Ha; simpl; auto.
  intros H. exfalso.
  apply andb_true_iff in H as [Hdot H]. rewrite Hdot in Hf. simpl in Hf.
  destruct f as [|w [|b f]]; simpl in *.
  - destruct rest as [|w [|b rest]]; try discriminate.
    simpl in Hr. apply digit_not_space in Hr. rewrite Hr in H. discriminate.
  - destruct rest as [|b rest]; try discriminate. simpl in Hr.
    apply andb_true_iff in H as [_ H]. apply Ascii.eqb_eq in H. subst b.
    discriminate.
  - congruence.
Qed.

Lemma head_across f rest :
  head_at f = false -> first_is is_digit rest = true ->
  head_at (f ++ rest) = true -> all_chars is_digit f = true.
Proof.
  destruct f as [|a f]; simpl; auto.
  intros Hf Hr H. apply andb_true_iff in H as [Ha H].
  rewrite Ha in *. simpl in *. eapply head_tail_across; eauto.
Qed.

Lemma head_free_inv c f :
  head_free (String c f) = true ->
  head_at (String c f) = false /\ head_free f = true.
Proof.
  cbn [head_free]. intros H. apply andb_true_iff in H as [H1 H2].
  apply negb_true_iff in H1. auto.
Qed.

Lemma number_app n m :
  all_chars is_digit n = true -> number m = true -> number (n ++ m) = true.
Proof.
  unfold number. intros Hn Hm. apply andb_true_iff in Hm as [Hm1 Hm2].
  rewrite all_chars_app, Hn, Hm2.
  destruct n; simpl; [rewrite Hm1|]; reflexivity.
Qed.

Lemma render_first b : number (ordinal b) = true -> first_is is_digit (render b) = true.
Proof.
  intros H. apply number_inv in H as (d & n & E & Hd & _).
  unfold render. rewrite E. simpl. exact Hd.
Qed.

Lemma render_nonempty b :
  number (ordinal b) = true -> exists c m, render b = String c m.
Proof.
  intros H. apply number_inv in H as (d & n & E & Hd & _).
  unfold render. rewrite E. simpl. eauto.
Qed.

Lemma render_lengthen n b : render (lengthen n b) = n ++ render b.
Proof. unfold render, lengthen. simpl. rewrite !append_assoc. reflexivity. Qed.

Lemma strict_lengthen n b :
  all_chars is_digit n = true -> strict b = true -> strict (lengthen n b) = true.
Proof.
  unfold strict, conforming, lengthen. simpl. intros Hn H.
  rewrite !andb_true_iff in *.
  destruct H as [[[[[H1 H2] H3] H4] H5] H6].
  repeat split; auto. apply number_app; auto.
Qed.

Lemma strict_number b : strict b = true -> number (ordinal b) = true.
Proof.
  unfold strict. intros H. apply andb_true_iff in H as [H _].
  apply conforming_inv in H. tauto.
Qed.

Lemma scan_block b rest :
  strict b = true ->
  scan pattern 0 (render b ++ rest) = groups_of b :: scan pattern 0 rest.
Proof.
  intros H. destruct (render_nonempty b (strict_number b H)) as (c & m & E).
  pose proof (run_block b rest H) as R. rewrite E in *.
  apply scan_match. exact R.
Qed.

(** Scanning a fragment and the block after it yields the block. *)
Lemma scan_fragment_block f b rest :
  head_free f = true -> strict b = true ->
  scan pattern 0 (f ++ render b ++ rest) = groups_of b :: scan pattern 0 rest.
Proof.
  intros Hf Hb. induction f as [|c f IH].
  - simpl. apply scan_block; auto.
  - apply head_free_inv in Hf as [Hh Hf].
    destruct (head_at (String c f ++ render b ++ rest)) eqn:E.
    + assert (Hd : all_chars is_digit (String c f) = true).
      { apply (head_across _ (render b ++ rest)); auto.
        pose proof (render_first b (strict_number b Hb)) as F.
        destruct (render b); simpl in *; congruence. }
      rewrite <- append_assoc, <- render_lengthen.
      rewrite scan_block by (apply strict_lengthen; auto).
      reflexivity.
    + change (String c f ++ render b ++ rest) with (String c (f ++ render b ++ rest)) in *.
      rewrite scan_fail by (apply no_head_no_match; auto).
      auto.
Qed.

Lemma scan_fragment f : head_free f = true -> scan pattern 0 f = [].
Proof.
  induction f as [|c f IH]; intros H.
  - reflexivity.
  - apply head_free_inv in H as [Hh Hf].
    rewrite scan_fail by (apply no_head_no_match; auto). auto.
Qed.

Lemma findall_response_then items last :
  forallb item_ok items = true ->
  findall pattern (response items last)
  = (map groups_of (map snd items) ++ findall pattern last)%list.
Proof.
  unfold findall. intros Hi. induction items as [|[f b] items IH]; simpl in *.
  - reflexivity.
  - apply andb_true_iff in Hi as [Hfb Hi]. unfold item_ok in Hfb. simpl in Hfb.
    apply andb_true_iff in Hfb as [Hf Hb].
    rewrite scan_fragment_block; auto. f_equal. auto.
Qed.

Lemma newlines_app a b : newlines (a ++ b) = newlines a + newlines b.
Proof. induction a; simpl; auto. rewrite IHa. lia. Qed.

Lemma newlines_none s : all_chars (not_char nl) s = true -> newlines s = 0.
Proof.
  induction s as [|c s IH]; simpl; auto. intros H.
  apply andb_true_iff in H as [Hc Hs]. apply not_char_fails in Hc.
  rewrite Hc, IH; auto.
Qed.

Lemma digit_not_newline c : is_digit c = true -> not_char nl c = true.
Proof.
  intros H. unfold not_char. destruct (Ascii.eqb_spec c nl); auto.
  subst c. discriminate.
Qed.

Lemma newlines_digits s : all_chars is_digit s = true -> newlines s = 0.
Proof.
  intros H. apply newlines_none.
  eapply all_chars_weaken; [apply digit_not_newline | exact H].
Qed.

Lemma number_digits s : number s = true -> all_chars is_digit s = true.
Proof. unfold number. intros H. apply andb_true_iff in H. tauto. Qed.

(** A match reads three newlines at least. *)
Lemma match_newlines s gs rest :
  run pattern false s = Some (gs, rest) -> 3 + newlines rest <= newlines s.
Proof.
  intros H.
  apply pattern_inv in H as (n & c & t & u & w1 & w2 & sc & w3 & a & -> & _).
  repeat first [rewrite newlines_app | progress cbn].
  destruct (Ascii.eqb c nl); lia.
Qed.

(** A match ends with the newline of the abstract line. *)
Lemma match_ends_with_newline s gs rest :
  run pattern false s = Some (gs, rest) -> exists m, s = m ++ NL ++ rest.
Proof.
  intros H.
  apply pattern_inv in H as (n & c & t & u & w1 & w2 & sc & w3 & a & -> & _).
  exists (n ++ "." ++ String c ("[" ++ t ++ "](" ++ u ++ ")" ++ w1 ++ NL ++
        "**Relevance:**" ++ w2 ++ sc ++ "/10" ++ NL ++ "**Abstract:**" ++ w3 ++ a)).
  repeat first [rewrite append_assoc | progress cbn [append]]. reflexivity.
Qed.

Lemma scan_few_newlines s : newlines s < 3 -> scan pattern 0 s = [].
Proof.
  induction s as [|c s IH]; intros H.
  - reflexivity.
  - destruct (run pattern false (String c s)) as [[gs rest]|] eqn:E.
    + apply match_newlines in E. lia.
    + rewrite scan_fail by auto. apply IH. simpl in H. lia.
Qed.

Lemma newlines_render_open b :
  conforming b = true -> newlines (render_open b) = 2.
Proof.
  intros H. apply conforming_inv in H as (Hn & Hs & _ & Ht & _ & Hu & Ha).
  unfold render_open.
  repeat first [rewrite newlines_app | progress cbn].
  rewrite (newlines_digits _ (number_digits _ Hn)).
  rewrite (newlines_digits _ (number_digits _ Hs)).
  rewrite !newlines_none by auto. reflexivity.
Qed.

Lemma render_open_first b :
  number (ordinal b) = true -> first_is is_digit (render_open b) = true.
Proof.
  intros H. apply number_inv in H as (d & n & E & Hd & _).
  unfold render_open. rewrite E. simpl. exact Hd.
Qed.

(** A block cut before its last newline yields nothing. *)
Lemma scan_fragment_open f b :
  head_free f = true -> conforming b = true ->
  scan pattern 0 (f ++ render_open b) = [].
Proof.
  intros Hf Hb. pose proof (newlines_render_open b Hb) as N.
  induction f as [|c f IH].
  - simpl. apply scan_few_newlines. lia.
  - apply head_free_inv in Hf as [Hh Hf].
    destruct (head_at (String c f ++ render_open b)) eqn:E.
    + assert (Hd : all_chars is_digit (String c f) = true).
      { apply (head_across _ (render_open b)); auto.
        apply render_open_first. apply conforming_inv in Hb. tauto. }
      apply scan_few_newlines.
      rewrite newlines_app, (newlines_digits _ Hd). lia.
    + change (String c f ++ render_open b) with (String c (f ++ render_open b)) in *.
      rewrite scan_fail by (apply no_head_no_match; auto).
      auto.
Qed.

(** ** The loop over the matches *)

Lemma lstrip_idem s : lstrip (lstrip s) = lstrip s.
Proof.
  induction s as [|c s IH]; simpl; auto.
  destruct (is_space c) eqn:Hc; auto. simpl. rewrite Hc. reflexivity.
Qed.

Lemma strip_lstrip s : strip (lstrip s) = strip s.
Proof. unfold strip. rewrite lstrip_idem. reflexivity. Qed.

Lemma int_number s : number s = true -> int s = Some (int_acc 0 s).
Proof. unfold int, number. intros ->. reflexivity. Qed.

Lemma strict_score b : strict b = true -> number (score b) = true.
Proof.
  unfold strict. intros H. apply andb_true_iff in H as [H _].
  apply conforming_inv in H. tauto.
Qed.

Lemma entries_of_blocks bs :
  forallb strict bs = true ->
  entries_of (map groups_of bs) = inr (map entry_of_block bs).
Proof.
  induction bs as [|b bs IH]; simpl; auto. intros H.
  apply andb_true_iff in H as [Hb Hbs].
  rewrite (int_number _ (strict_score b Hb)), (IH Hbs).
  unfold entry_of_block, make_entry. rewrite strip_lstrip. reflexivity.
Qed.

Lemma items_strict items :
  forallb item_ok items = true -> forallb strict (map snd items) = true.
Proof.
  induction items as [|[f b] items IH]; simpl; auto. intros H.
  apply andb_true_iff in H as [Hfb Hi]. unfold item_ok in Hfb.
  apply andb_true_iff in Hfb as [_ Hb]. simpl in Hb. rewrite Hb. auto.
Qed.

Lemma scan_Forall (P : list string -> Prop) p :
  (forall s gs rest, run p false s = Some (gs, rest) -> P gs) ->
  forall s k, Forall P (scan p k s).
Proof.
  intros HP. induction s as [|c s IH]; intros k.
  - destruct k; simpl; auto.
    destruct (run p false "") as [[gs rest]|] eqn:E; auto.
    constructor; eauto.
  - destruct k; cbn [scan]; auto.
    destruct (run p false (String c s)) as [[gs rest]|] eqn:E; auto.
    constructor; eauto.
Qed.

Lemma findall_groups text :
  Forall (fun g => exists t u sc a, g = [t; u; sc; a] /\ number sc = true)
         (findall pattern text).
Proof.
  apply scan_Forall. intros s gs rest H.
  apply pattern_inv in H as (n & c & t & u & w1 & w2 & sc & w3 & a & _ & _ & _ & _ & _ & Hsc & _ & ->).
  exists t, u, sc, a. auto.
Qed.

(** The loop raises nothing on the matches of the pattern. *)
Lemma entries_of_matches ms :
  Forall (fun g => exists t u sc a, g = [t; u; sc; a] /\ number sc = true) ms ->
  exists es, entries_of ms = inr es /\ Forall2 entry_of_match ms es.
Proof.
  induction 1 as [|g ms (t & u & sc & a & -> & Hsc) _ (es & E & F)].
  - exists []. simpl. auto.
  - exists (make_entry t u (int_acc 0 sc) a :: es). simpl.
    rewrite (int_number _ Hsc), E. split; auto.
    constructor; auto. exists t, u, sc, a. auto.
Qed.

Lemma search_returns generate query max_results text :
  generate (prompt query max_results) = Returns text ->
  Forall2 entry_of_match (findall pattern text)
          (gemini_scholar_search generate query max_results).
Proof.
  intros H. unfold gemini_scholar_search. rewrite H.
  destruct (entries_of_matches _ (findall_groups text)) as (es & E & F).
  rewrite E. exact F.
Qed.

Lemma search_response generate query max_results items last :
  generate (prompt query max_results) = Returns (response items last) ->
  forallb item_ok items = true ->
  findall pattern last = [] ->
  gemini_scholar_search generate query max_results
  = map entry_of_block (map snd items).
Proof.
  intros H Hi Hl. unfold gemini_scholar_search. rewrite H.
  rewrite findall_response_then, Hl, app_nil_r by auto.
  rewrite entries_of_blocks by (apply items_strict; auto).
  reflexivity.
Qed.

(** ** [strip] *)

Lemma rstrip_split s : exists r, s = rstrip s ++ r /\ blank r = true.
Proof.
  unfold blank. induction s as [|c s (r & E & Hr)]; simpl.
  - exists "". auto.
  - destruct (rstrip s) as [|d t] eqn:R.
    + destruct (is_space c) eqn:Hc.
      * exists (String c s). simpl in *. rewrite Hc. subst r. auto.
      * exists r. simpl in *. subst r. auto.
    + exists r. simpl in *. split; [f_equal; exact E | exact Hr].
Qed.

Lemma rstrip_last s : last_is is_space (rstrip s) = false.
Proof.
  induction s as [|c s IH]; simpl; auto.
  destruct (rstrip s) as [|d t] eqn:R.
  - destruct (is_space c) eqn:Hc; simpl; auto.
  - exact IH.
Qed.

Lemma rstrip_first s :
  first_is is_space s = false -> first_is is_space (rstrip s) = false.
Proof.
  destruct s as [|c s]; simpl; auto. intros Hc.
  destruct (rstrip s); simpl; rewrite Hc; simpl; auto.
Qed.

(** [strip] removes white space at both ends, and only that. *)
Lemma strip_spec s :
  exists l r, s = l ++ strip s ++ r /\ blank l = true /\ blank r = true /\
    first_is is_space (strip s) = false /\ last_is is_space (strip s) = false.
Proof.
  destruct (lstrip_split s) as (l & El & Hl).
  destruct (rstrip_split (lstrip s)) as (r & Er & Hr).
  exists l, r. unfold strip. repeat split; auto.
  - rewrite <- Er. exact El.
  - apply rstrip_first, lstrip_first.
  - apply rstrip_last.
Qed.



(** ** [in] *)

Lemma prefix_app x b : String.prefix x (x ++ b) = true.
Proof.
  induction x as [|c x IH]; simpl.
  - destruct b; reflexivity.
  - destruct (ascii_dec c c); congruence.
Qed.

Lemma contains_here x b : contains x (x ++ b) = true.
Proof.
  pose proof (prefix_app x b) as H.
  destruct (x ++ b); cbn [contains]; rewrite H; reflexivity.
Qed.

Lemma contains_later x a s : contains x s = true -> contains x (a ++ s) = true.
Proof.
  intros H. induction a as [|c a IH]; simpl; auto.
  rewrite IH. apply orb_true_r.
Qed.


Lemma int_acc_uint d : forall acc,
  int_acc (Z.pos acc) (NilEmpty.string_of_uint d) = Z.pos (Pos.of_uint_acc d acc).
Proof.
  induction d as [|d IH|d IH|d IH|d IH|d IH|d IH|d IH|d IH|d IH|d IH];
    intros acc; cbn [NilEmpty.string_of_uint int_acc Pos.of_uint_acc];
    [reflexivity | rewrite <- IH; f_equal;
       match goal with
       | |- context [digit_value ?c] =>
           let v := eval vm_compute in (digit_value c) in
           change (digit_value c) with v
       end; lia ..].
Qed.

Lemma int_acc_of_uint d :
  int_acc 0 (NilEmpty.string_of_uint d) = Z.of_N (Pos.of_uint d).
Proof.
  induction d as [|d IH|d IH|d IH|d IH|d IH|d IH|d IH|d IH|d IH|d IH];
    cbn [NilEmpty.string_of_uint int_acc Pos.of_uint];
    [reflexivity | exact IH | apply (int_acc_uint d 1) | apply (int_acc_uint d 2)
     | apply (int_acc_uint d 3) | apply (int_acc_uint d 4) | apply (int_acc_uint d 5)
     | apply (int_acc_uint d 6) | apply (int_acc_uint d 7) | apply (int_acc_uint d 8)
     | apply (int_acc_uint d 9)].
Qed.



(** * The extractor *)

(** C1.  When the generation call raises, the extractor returns exactly
    one entry: its relevance is 0, its link and its abstract are empty,
    its source is ["gemini"], and its title contains the text of the
    exception.  The function is total: nothing is raised to the caller. *)
Theorem failure_gives_one_error_entry generate query max_results exc :
  generate (prompt query max_results) = Raises exc ->
  exists t,
    gemini_scholar_search generate query max_results
    = [ {| title := Some t; link := Some ""; relevance := Some 0%Z;
           abstract := Some ""; source := Some "gemini"; year := None |} ]
    /\ contains exc t = true
    /\ List.length (gemini_scholar_search generate query max_results) = 1.
Proof.
  intros H. unfold gemini_scholar_search. rewrite H.
  exists ("Gemini Error: " ++ exc). repeat split.
  apply contains_later. rewrite <- (append_nil_r exc) at 2. apply contains_here.
Qed.

Lemma failure_gives_one_error_entry_witness :
  raising "quota exceeded" (prompt "graph learning" 5) = Raises "quota exceeded" /\
  exists t,
    gemini_scholar_search (raising "quota exceeded") "graph learning" 5
    = [ {| title := Some t; link := Some ""; relevance := Some 0%Z;
           abstract := Some ""; source := Some "gemini"; year := None |} ]
    /\ contains "quota exceeded" t = true
    /\ List.length (gemini_scholar_search (raising "quota exceeded") "graph learning" 5) = 1.
Proof.
  split.
  - reflexivity.
  - apply (failure_gives_one_error_entry (raising "quota exceeded") "graph learning" 5
             "quota exceeded").
    reflexivity.
Defined.

(** The first example of the specification. *)
Example deep_learning_survey :
  gemini_scholar_search
    (returning ("1. [Deep Learning Survey](http://x.org/a)" ++ NL ++
                "**Relevance:** 9/10" ++ NL ++ "**Abstract:** A survey." ++ NL))
    "deep learning" 5
  = [ {| title := Some "Deep Learning Survey"; link := Some "http://x.org/a";
         relevance := Some 9%Z; abstract := Some "A survey.";
         source := Some "gemini"; year := None |} ].
Proof. vm_compute. reflexivity. Qed.

(** C2 fails on the code.  Each of two conforming blocks alone gives
    its entry, the first one with an empty abstract; the two in a row
    give one entry, not two: the white space after [**Abstract:**] runs
    over the end of the line, and the abstract of the entry is the
    first line of the second block.  A fragment that begins like an
    entry is not ignored either: it is read into the title of the entry
    after it. *)
Theorem blank_abstract_merges_blocks :
  conforming block_blank = true /\ conforming block_b = true /\
  gemini_scholar_search (returning (render block_blank)) "q" 5
  = [ {| title := Some "A"; link := Some "u"; relevance := Some 5%Z;
         abstract := Some ""; source := Some "gemini"; year := None |} ] /\
  gemini_scholar_search (returning (render block_b)) "q" 5
  = [ {| title := Some "Graphs"; link := Some ""; relevance := Some 7%Z;
         abstract := Some "b"; source := Some "gemini"; year := None |} ] /\
  gemini_scholar_search (returning (render block_blank ++ render block_b)) "q" 5
  = [ {| title := Some "A"; link := Some "u"; relevance := Some 5%Z;
         abstract := Some "2. [Graphs]()"; source := Some "gemini";
         year := None |} ] /\
  gemini_scholar_search (returning (broken_head ++ render block_b)) "q" 5
  = [ {| title := Some ("Broken" ++ NL ++ "2. [Graphs"); link := Some "";
         relevance := Some 7%Z; abstract := Some "b";
         source := Some "gemini"; year := None |} ].
Proof. vm_compute. repeat split. Qed.









(** The entries of the sample response, and their Markdown. *)
Example sample_entries :
  gemini_scholar_search (returning (response sample_items "Done.")) "deep learning" 2
  = [make_entry "Deep Learning Survey" "http://x.org/a" 9 "A survey.";
     make_entry "Graphs" "" 7 "b"]
  /\ format_md [make_entry "Graphs" "" 7 "b"]
     = Some ("1. [Graphs](#)" ++ NL ++ "**Relevance:** 7/10" ++ NL ++
             "**Abstract:** b" ++ NL).
Proof. vm_compute. auto. Qed.

(** C10.  In an ASCII response, a conforming block at the end of the
    text, cut before the newline that ends its abstract line, gives no
    entry: the entries are those of the blocks before it.  Every match
    of the pattern ends with a newline. *)
Theorem unterminated_block_gives_nothing generate query max_results items last b :
  generate (prompt query max_results)
  = Returns (response items (last ++ render_open b)) ->
  isascii (response items (last ++ render_open b)) = true ->
  forallb item_ok items = true ->
  forallb score_fits (map snd items) = true ->
  head_free last = true ->
  conforming b = true ->
  gemini_scholar_search generate query max_results
  = map entry_of_block (map snd items)
  /\ (forall s gs rest,
        run pattern false s = Some (gs, rest) -> exists m, s = m ++ NL ++ rest).
Proof.
  intros G _ Hi _ Hl Hb. split.
  - apply search_response with (last := last ++ render_open b); auto.
    apply scan_fragment_open; auto.
  - apply match_ends_with_newline.
Qed.

Lemma unterminated_block_gives_nothing_witness :
  returning (response sample_items ("Next:" ++ render_open block_a))
    (prompt "deep learning" 3)
  = Returns (response sample_items ("Next:" ++ render_open block_a)) /\
  isascii (response sample_items ("Next:" ++ render_open block_a)) = true /\
  forallb item_ok sample_items = true /\
  forallb score_fits (map snd sample_items) = true /\
  head_free "Next:" = true /\
  conforming block_a = true /\
  gemini_scholar_search
    (returning (response sample_items ("Next:" ++ render_open block_a)))
    "deep learning" 3
  = map entry_of_block (map snd sample_items)
  /\ (forall s gs rest,
        run pattern false s = Some (gs, rest) -> exists m, s = m ++ NL ++ rest).
Proof.
  split; [reflexivity|]. split; [reflexivity|]. split; [reflexivity|].
  split; [reflexivity|]. split; [reflexivity|]. split; [reflexivity|].
  apply (unterminated_block_gives_nothing
           (returning (response sample_items ("Next:" ++ render_open block_a)))
           "deep learning" 3 sample_items "Next:" block_a); reflexivity.
Defined.

(** * The prompt *)

(** C7, as stated, fails: the prompt names the ordinal [<number>], so it
    does not contain the line [<n>. [<Title>](<URL>)]. *)
Lemma prompt_lacks_n_line :
  contains "<n>. [<Title>](<URL>)" (prompt "deep learning" 5) = false.
Proof. vm_compute. reflexivity. Qed.

(** C7, amended.  For every query and every count the prompt is defined
    and contains the query, the count in decimal, and the three lines
    [<number>. [<Title>](<URL>)], [**Relevance:** <score>/10] and
    [**Abstract:** <text>], each ended by a newline. *)
Theorem prompt_contains query max_results :
  contains query (prompt query max_results) = true
  /\ contains (str max_results) (prompt query max_results) = true
  /\ contains ("<number>. [<Title>](<URL>)" ++ NL ++
               "**Relevance:** <score>/10" ++ NL ++
               "**Abstract:** <text>" ++ NL)
              (prompt query max_results) = true.
Proof.
  unfold prompt. repeat split.
  - do 3 apply contains_later. apply contains_here.
  - do 7 apply contains_later. apply contains_here.
  - do 10 apply contains_later. rewrite <- !append_assoc.
    apply contains_here.
Qed.

(** * Sorting *)

Section SortProofs.
Context {A : Type} (key : A -> Z).

Lemma insert_perm x l : Permutation (x :: l) (insert key x l).
Proof.
  induction l as [|y l IH]; simpl; auto.
  destruct (key x <=? key y)%Z; auto.
  apply perm_trans with (y :: x :: l); [apply perm_swap|]. auto.
Qed.

Lemma sort_ascending_perm l : Permutation l (sort_ascending key l).
Proof.
  induction l as [|x l IH]; simpl; auto.
  apply perm_trans with (x :: sort_ascending key l); auto.
  apply insert_perm.
Qed.

Lemma insert_sorted x l :
  StronglySorted (ascending key) l -> StronglySorted (ascending key) (insert key x l).
Proof.
  induction 1 as [|y l S IH F]; simpl.
  - repeat constructor.
  - destruct (key x <=? key y)%Z eqn:E.
    + apply Z.leb_le in E. constructor; [constructor; auto|].
      constructor; auto.
      eapply Forall_impl; [|exact F]. unfold ascending. intros; lia.
    + apply Z.leb_gt in E. constructor; auto.
      apply (Permutation_Forall (insert_perm x l)).
      constructor; auto. unfold ascending. lia.
Qed.

Lemma sort_ascending_sorted l : StronglySorted (ascending key) (sort_ascending key l).
Proof.
  induction l as [|x l IH]; simpl; [constructor|]. apply insert_sorted; auto.
Qed.

Lemma insert_with_key k x l :
  with_key key k (insert key x l) = with_key key k (x :: l).
Proof.
  unfold with_key. induction l as [|y l IH]; auto.
  cbn [insert]. destruct (key x <=? key y)%Z eqn:E; auto.
  apply Z.leb_gt in E. cbn [filter] in *. rewrite IH.
  destruct (key x =? k)%Z eqn:Ex; auto.
  apply Z.eqb_eq in Ex.
  replace (key y =? k)%Z with false; auto.
  symmetry. apply Z.eqb_neq. lia.
Qed.

Lemma sort_ascending_stable k l :
  with_key key k (sort_ascending key l) = with_key key k l.
Proof.
  induction l as [|x l IH]; auto.
  cbn [sort_ascending]. rewrite insert_with_key.
  unfold with_key in *. cbn [filter]. rewrite IH. reflexivity.
Qed.

Lemma sorted_snoc l x :
  StronglySorted (descending key) l -> Forall (fun y => descending key y x) l ->
  StronglySorted (descending key) (l ++ [x]).
Proof.
  induction 1 as [|y l S IH F]; intros Hx; simpl.
  - repeat constructor.
  - inversion Hx; subst. constructor; auto.
    apply Forall_app. split; auto.
Qed.

Lemma sorted_rev l :
  StronglySorted (ascending key) l -> StronglySorted (descending key) (rev l).
Proof.
  induction 1 as [|x l S IH F]; simpl; [constructor|].
  apply sorted_snoc; auto. apply Forall_rev. exact F.
Qed.

Lemma list_sort_reverse_perm l : Permutation l (list_sort key true l).
Proof.
  unfold list_sort.
  apply perm_trans with (rev l); [apply Permutation_rev|].
  apply perm_trans with (sort_ascending key (rev l));
    [apply sort_ascending_perm | apply Permutation_rev].
Qed.

Lemma list_sort_reverse_sorted l :
  StronglySorted (descending key) (list_sort key true l).
Proof. apply sorted_rev, sort_ascending_sorted. Qed.

Lemma list_sort_reverse_stable k l :
  with_key key k (list_sort key true l) = with_key key k l.
Proof.
  unfold list_sort, with_key.
  rewrite filter_rev. fold (with_key key k (sort_ascending key (rev l))).
  rewrite sort_ascending_stable. unfold with_key.
  rewrite filter_rev, rev_involutive. reflexivity.
Qed.
End SortProofs.

(** C5.  Sorting in mode [relevance] gives a permutation of the entries
    in descending order of their [relevance] field, an entry without
    the field counting as 0; the sort is stable: for every value, the
    entries whose relevance is that value are in the order they had. *)
Theorem sort_by_relevance (all_results : list entry) :
  Permutation all_results (sort_results "relevance" all_results)
  /\ StronglySorted
       (fun a b =>
          (match relevance b with Some r => r | None => 0 end
           <= match relevance a with Some r => r | None => 0 end)%Z)
       (sort_results "relevance" all_results)
  /\ forall k,
       filter (fun e => (match relevance e with Some r => r | None => 0 end =? k)%Z)
              (sort_results "relevance" all_results)
       = filter (fun e => (match relevance e with Some r => r | None => 0 end =? k)%Z)
                all_results.
Proof.
  unfold sort_results. cbn [String.eqb Ascii.eqb Bool.eqb].
  split; [apply list_sort_reverse_perm|].
  split; [exact (list_sort_reverse_sorted relevance_key all_results)|].
  intros k. exact (list_sort_reverse_stable relevance_key k all_results).
Qed.

(** The third example of the specification: two entries of relevance 7
    keep their order, after an entry of relevance 9 that came last. *)
Example equal_relevance_keeps_order :
  sort_results "relevance"
    [make_entry "A" "" 7 ""; make_entry "B" "" 7 ""; make_entry "C" "" 9 ""]
  = [make_entry "C" "" 9 ""; make_entry "A" "" 7 ""; make_entry "B" "" 7 ""].
Proof. reflexivity. Qed.

(** C6.  In mode [retrieved] the entries go to the formatter as they
    are: nothing is reordered. *)
Theorem retrieved_keeps_order (all_results : list entry) :
  sort_results "retrieved" all_results = all_results.
Proof.
  unfold sort_results.
  destruct (String.eqb_spec "retrieved" "relevance") as [E|_].
  - discriminate E.
  - reflexivity.
Qed.

(** * The CSV writer *)

Lemma read_app r a b : read r (a ++ b) = read (read r a) b.
Proof. revert r. induction a as [|c a IH]; simpl; auto. Qed.

Lemma read_char_open f rw rs :
  read_char {| state := Quoted; field := f; row := rw; rows := rs |} dq
  = {| state := QuoteSeen; field := f; row := rw; rows := rs |}.
Proof. reflexivity. Qed.

Lemma read_char_doubled f rw rs :
  read_char {| state := QuoteSeen; field := f; row := rw; rows := rs |} dq
  = {| state := Quoted; field := f ++ String dq ""; row := rw; rows := rs |}.
Proof. reflexivity. Qed.

Lemma read_char_quoted f rw rs c :
  Ascii.eqb c dq = false ->
  read_char {| state := Quoted; field := f; row := rw; rows := rs |} c
  = {| state := Quoted; field := f ++ String c ""; row := rw; rows := rs |}.
Proof. intros H. unfold read_char. cbn [state]. rewrite H. reflexivity. Qed.

Lemma read_quoted_body x : forall f rw rs rest,
  read {| state := Quoted; field := f; row := rw; rows := rs |}
       (double_quotes x ++ rest)
  = read {| state := Quoted; field := f ++ x; row := rw; rows := rs |} rest.
Proof.
  induction x as [|c x IH]; intros f rw rs rest.
  - simpl. rewrite append_nil_r. reflexivity.
  - cbn [double_quotes]. destruct (Ascii.eqb c dq) eqn:E.
    + apply Ascii.eqb_eq in E. subst c. cbn [append read].
      rewrite read_char_open, read_char_doubled, IH, append_assoc. reflexivity.
    + cbn [append read].
      rewrite (read_char_quoted _ _ _ _ E), IH, append_assoc. reflexivity.
Qed.

Lemma special_false c :
  special c = false ->
  Ascii.eqb c "," = false /\ Ascii.eqb c dq = false /\
  Ascii.eqb c cr = false /\ Ascii.eqb c nl = false.
Proof. unfold special. rewrite !orb_false_iff. tauto. Qed.

Lemma outside_plain r c :
  special c = false ->
  outside r c = {| state := Plain; field := field r ++ String c "";
                   row := row r; rows := rows r |}.
Proof.
  intros H. apply special_false in H as (H1 & _ & H3 & H4).
  unfold outside. rewrite H1, H3, H4. reflexivity.
Qed.

Lemma read_plain x : forall f rw rs rest,
  needs_quotes x = false ->
  read {| state := Plain; field := f; row := rw; rows := rs |} (x ++ rest)
  = read {| state := Plain; field := f ++ x; row := rw; rows := rs |} rest.
Proof.
  induction x as [|c x IH]; intros f rw rs rest H.
  - simpl. rewrite append_nil_r. reflexivity.
  - cbn [needs_quotes] in H. apply orb_false_iff in H as [Hc Hx].
    cbn [append read]. unfold read_char. cbn [state].
    rewrite (outside_plain _ c Hc). cbn [field row rows].
    rewrite IH, append_assoc by auto. reflexivity.
Qed.

(** A separator ends the field, whatever the reader was reading. *)
Lemma read_separator r c :
  c = ","%char \/ c = cr ->
  state r <> Quoted ->
  read_char r c = outside r c.
Proof.
  intros Hc Hs. unfold read_char.
  destruct (state r); try reflexivity; try congruence;
    destruct Hc; subst c; reflexivity.
Qed.

(** Reading a written field and the separator after it. *)
Lemma read_field r x c rest :
  start_like r -> c = ","%char \/ c = cr ->
  read r (csv_field x ++ String c rest) = read (outside (set_field r x) c) rest.
Proof.
  intros [Hs Hf] Hc. destruct r as [s f rw rs]. simpl in Hs, Hf. subst f.
  unfold csv_field, set_field. cbn [state field row rows].
  destruct (needs_quotes x) eqn:Q.
  - cbn [append read].
    replace (read_char {| state := s; field := ""; row := rw; rows := rs |} dq)
      with {| state := Quoted; field := ""; row := rw; rows := rs |}
      by (destruct Hs; subst s; reflexivity).
    rewrite append_assoc, read_quoted_body. cbn [append read].
    rewrite read_char_open.
    rewrite read_separator by (cbn [state]; auto; discriminate).
    destruct Hc; subst c; reflexivity.
  - destruct x as [|a x].
    + cbn [append read]. rewrite read_separator; auto.
      cbn [state]. destruct Hs; subst s; discriminate.
    + cbn [needs_quotes] in Q. apply orb_false_iff in Q as [Qa Qx].
      cbn [append read].
      replace (read_char {| state := s; field := ""; row := rw; rows := rs |} a)
        with {| state := Plain; field := String a ""; row := rw; rows := rs |}.
      * rewrite read_plain by auto. cbn [append read].
        rewrite read_separator by (cbn [state]; auto; discriminate).
        destruct Hc; subst c; reflexivity.
      * pose proof (special_false _ Qa) as (_ & H2 & _ & H4).
        unfold read_char. cbn [state].
        destruct Hs; subst s; rewrite ?H4, ?H2, (outside_plain _ a Qa); reflexivity.
Qed.

Lemma writerow_cells x y l :
  writerow (x :: y :: l) = String.concat "," (map csv_field (x :: y :: l)) ++ CRLF.
Proof. unfold writerow. destruct x; reflexivity. Qed.

Lemma concat_cons sep x y l :
  String.concat sep (x :: y :: l) = x ++ sep ++ String.concat sep (y :: l).
Proof. reflexivity. Qed.

(** Reading a written row. *)
Lemma read_cells xs : forall x r rest,
  start_like r ->
  read r (String.concat "," (map csv_field (x :: xs)) ++ CRLF ++ rest)
  = read {| state := Start; field := ""; row := [];
            rows := (rows r ++ [row r ++ x :: xs])%list |} rest.
Proof.
  induction xs as [|y xs IH]; intros x r rest Hr.
  - cbn [map String.concat]. unfold CRLF. cbn [append].
    rewrite read_field by auto. reflexivity.
  - change (map csv_field (x :: y :: xs))
      with (csv_field x :: csv_field y :: map csv_field xs).
    rewrite concat_cons, !append_assoc. cbn [append].
    rewrite read_field by auto.
    change (csv_field y :: map csv_field xs) with (map csv_field (y :: xs)).
    rewrite IH by (split; auto).
    unfold outside, set_field. cbn [Ascii.eqb Bool.eqb state field row rows].
    rewrite <- app_assoc. reflexivity.
Qed.

Lemma read_row x y l rs rest :
  read {| state := Start; field := ""; row := []; rows := rs |}
       (writerow (x :: y :: l) ++ rest)
  = read {| state := Start; field := ""; row := [];
            rows := (rs ++ [x :: y :: l])%list |} rest.
Proof.
  rewrite writerow_cells, append_assoc, read_cells by (split; auto).
  reflexivity.
Qed.

Lemma read_rows entries : forall rs,
  read {| state := Start; field := ""; row := []; rows := rs |} (write_rows entries)
  = {| state := Start; field := ""; row := [];
       rows := (rs ++ map (fun e => map (cell e) fieldnames) entries)%list |}.
Proof.
  induction entries as [|e entries IH]; intros rs; cbn [write_rows map].
  - rewrite app_nil_r. reflexivity.
  - unfold fieldnames at 1. cbn [map].
    rewrite read_row, IH, <- app_assoc. reflexivity.
Qed.

(** C9.  The CSV text begins with the header row
    [title,link,relevance,abstract,source]; read as CSV it has that row
    and then one row per entry, in the order of the entries, with the
    five fields of the entry; a field the entry does not have is the
    empty string. *)
Theorem csv_has_header_and_one_row_per_entry (entries : list entry) :
  write_csv entries
  = "title,link,relevance,abstract,source" ++ CRLF ++ write_rows entries
  /\ csv_rows (write_csv entries)
     = fieldnames :: map (fun e => map (cell e) fieldnames) entries
  /\ List.length (csv_rows (write_csv entries)) = S (List.length entries)
  /\ forall e,
       map (cell e) fieldnames
       = [text_of (title e); text_of (link e); number_of (relevance e);
          text_of (abstract e); text_of (source e)].
Proof.
  assert (R : csv_rows (write_csv entries)
              = fieldnames :: map (fun e => map (cell e) fieldnames) entries).
  { assert (E : read {| state := Start; field := ""; row := []; rows := [] |}
                     (write_csv entries)
                = {| state := Start; field := ""; row := [];
                     rows := fieldnames
                             :: map (fun e => map (cell e) fieldnames) entries |}).
    { unfold write_csv. unfold fieldnames at 1.
      rewrite read_row, read_rows. reflexivity. }
    unfold csv_rows. rewrite E. reflexivity. }
  split; [reflexivity|]. split; [exact R|]. split.
  - rewrite R. cbn [List.length]. rewrite length_map. reflexivity.
  - intros e. destruct e as [[t|] [l|] [r|] [a|] [s|] y]; reflexivity.
Qed.

(** The fourth example of the specification, with a title that needs
    quotes and an entry without a link. *)
Example csv_sample :
  write_csv [make_entry "A, B" "u" 7 "x";
             {| title := Some "C"; link := None; relevance := Some 3%Z;
                abstract := Some ""; source := Some "gemini"; year := None |}]
  = "title,link,relevance,abstract,source" ++ CRLF ++
    String dq ("A, B" ++ String dq (",u,7,x,gemini" ++ CRLF ++
    "C,,3,,gemini" ++ CRLF)).
Proof. reflexivity. Qed.

(** * JSON *)

Lemma scan_escape_char c x :
  scan_string (json_escape_char c ++ x) = push c (scan_string x).
Proof. destruct c as [[] [] [] [] [] [] [] []]; reflexivity. Qed.

(** Reading a written string gives the string back. *)
Lemma scan_string_escape s rest :
  scan_string (json_escape s ++ String dq rest) = Some (s, rest).
Proof.
  induction s as [|c s IH].
  - reflexivity.
  - cbn [json_escape]. rewrite append_assoc, scan_escape_char, IH. reflexivity.
Qed.

Lemma span_app p a rest :
  all_chars p a = true -> first_is p rest = false ->
  span p (a ++ rest) = (a, rest).
Proof.
  intros Ha Hr. induction a as [|c a IH]; simpl in *.
  - destruct rest as [|d rest]; simpl in *; auto. rewrite Hr. reflexivity.
  - apply andb_true_iff in Ha as [Hc Ha]. rewrite Hc, (IH Ha). reflexivity.
Qed.

Lemma uint_digits d : all_chars is_digit (NilEmpty.string_of_uint d) = true.
Proof. induction d; simpl; auto. Qed.

Lemma str_chars n : all_chars number_char (str n) = true.
Proof.
  assert (U : forall d, all_chars number_char (NilZero.string_of_uint d) = true).
  { intros d. apply all_chars_weaken with (p := is_digit).
    - intros c H. unfold number_char. rewrite H. reflexivity.
    - destruct d; try apply uint_digits. reflexivity. }
  unfold str. destruct (Z.to_int n); simpl; auto.
Qed.

Lemma to_int_proper n : Z.to_int n <> Decimal.Pos Decimal.Nil /\ Z.to_int n <> Decimal.Neg Decimal.Nil.
Proof.
  destruct n as [|p|p]; simpl; split; try discriminate;
    intros E; injection E as E; exact (DecimalPos.Unsigned.to_uint_nonnil p E).
Qed.

Lemma int_of_str n : NilZero.int_of_string (str n) = Some (Z.to_int n).
Proof. destruct (to_int_proper n). apply NilZero.isi; auto. Qed.

Lemma str_nonempty n : exists c s, str n = String c s /\ number_char c = true.
Proof.
  pose proof (int_of_str n) as H. pose proof (str_chars n) as C.
  destruct (str n) as [|c s]; [discriminate H|].
  simpl in C. apply andb_true_iff in C as [C _]. eauto.
Qed.

(** Reading a written integer gives the integer back. *)
Lemma scan_number_str n rest :
  first_is number_char rest = false -> first_is float_char rest = false ->
  scan_number (str n ++ rest) = Some (n, rest).
Proof.
  intros H1 H2. unfold scan_number.
  rewrite (span_app _ _ _ (str_chars n) H1), H2, int_of_str.
  rewrite DecimalZ.of_to, String.eqb_refl. reflexivity.
Qed.

Lemma scan_value_written v rest :
  ends_value rest -> scan_value (json_value v ++ rest) = Some (v, rest).
Proof.
  intros [H1 H2]. destruct v as [n|s]; cbn [json_value].
  - destruct (str_nonempty n) as (c & s & E & Hc).
    assert (Q : Ascii.eqb c dq = false).
    { apply Ascii.eqb_neq. intros ->. discriminate Hc. }
    unfold scan_value. rewrite E. cbn [append]. rewrite Q.
    change (String c (s ++ rest)) with (String c s ++ rest).
    rewrite <- E, scan_number_str by auto. reflexivity.
  - unfold json_string. cbn [append scan_value].
    change (Ascii.eqb dq dq) with true. cbn iota.
    rewrite append_assoc. cbn [append]. rewrite scan_string_escape. reflexivity.
Qed.

Lemma skip_ws_value v rest :
  skip_ws (String " " (json_value v ++ rest)) = json_value v ++ rest.
Proof.
  destruct v as [n|s]; cbn [json_value].
  - destruct (str_nonempty n) as (c & s & E & Hc). rewrite E. cbn.
    replace (json_space c) with false; auto.
    symmetry. unfold number_char in Hc. apply orb_true_iff in Hc as [Hc|Hc].
    + unfold json_space.
      destruct c as [[] [] [] [] [] [] [] []]; try reflexivity; discriminate Hc.
    + apply Ascii.eqb_eq in Hc. subst c. reflexivity.
  - reflexivity.
Qed.

(** Reading a written member gives the member back. *)
Lemma scan_member_written kv rest :
  ends_value rest -> scan_member (json_member kv ++ rest) = Some (kv, rest).
Proof.
  intros H. destruct kv as [k v]. unfold json_member, json_string. cbn [fst snd].
  repeat first [rewrite append_assoc | progress cbn [append]].
  unfold scan_member. unfold expect at 1. cbn [skip_ws].
  change (json_space dq) with false. cbn iota.
  change (Ascii.eqb dq dq) with true. cbn iota.
  rewrite scan_string_escape.
  unfold expect. cbn [skip_ws]. change (json_space ":") with false. cbn iota.
  change (Ascii.eqb ":" ":") with true. cbn iota.
  rewrite skip_ws_value, scan_value_written by auto. reflexivity.
Qed.

Lemma skip_ws_app w x :
  all_chars json_space w = true -> skip_ws (w ++ x) = skip_ws x.
Proof.
  induction w as [|c w IH]; simpl; auto. intros H.
  apply andb_true_iff in H as [Hc Hw]. rewrite Hc. auto.
Qed.

Lemma expect_skip c w x :
  all_chars json_space w = true -> expect c (w ++ x) = expect c x.
Proof. intros H. unfold expect. rewrite skip_ws_app; auto. Qed.

Lemma scan_member_skip w x :
  all_chars json_space w = true -> scan_member (w ++ x) = scan_member x.
Proof. intros H. unfold scan_member. rewrite expect_skip; auto. Qed.

Lemma scan_members_skip fuel w x :
  all_chars json_space w = true -> scan_members fuel (w ++ x) = scan_members fuel x.
Proof. intros H. destruct fuel; simpl; auto. rewrite scan_member_skip; auto. Qed.

Lemma scan_object_skip size w x :
  all_chars json_space w = true -> scan_object size (w ++ x) = scan_object size x.
Proof. intros H. unfold scan_object. rewrite expect_skip; auto. Qed.

Lemma scan_objects_skip fuel size w x :
  all_chars json_space w = true ->
  scan_objects fuel size (w ++ x) = scan_objects fuel size x.
Proof. intros H. destruct fuel; simpl; auto. rewrite scan_object_skip; auto. Qed.

Lemma expect_here c x : json_space c = false -> expect c (String c x) = Some x.
Proof.
  intros H. unfold expect. cbn [skip_ws]. rewrite H, Ascii.eqb_refl. reflexivity.
Qed.

Lemma expect_other c d x :
  json_space d = false -> Ascii.eqb d c = false -> expect c (String d x) = None.
Proof. intros H E. unfold expect. cbn [skip_ws]. rewrite H, E. reflexivity. Qed.

Lemma json_member_first kv x :
  exists y, json_member kv ++ x = String dq y.
Proof. destruct kv as [k v]. unfold json_member, json_string. simpl. eauto. Qed.

(** Reading the written members of an object gives them back. *)
Lemma scan_members_written ms : forall m fuel rest,
  List.length ms < fuel ->
  scan_members fuel
    (String.concat member_separator (map json_member (m :: ms)) ++
     NL ++ "  }" ++ rest)
  = Some (m :: ms, rest).
Proof.
  induction ms as [|m' ms IH]; intros m fuel rest Hf;
    (destruct fuel as [|fuel]; [simpl in Hf; lia|]).
  - cbn [map String.concat scan_members].
    rewrite scan_member_written by (split; reflexivity).
    change (NL ++ "  }" ++ rest) with ((NL ++ "  ") ++ String "}" rest).
    rewrite !expect_skip by reflexivity.
    rewrite expect_other, expect_here by reflexivity. reflexivity.
  - change (map json_member (m :: m' :: ms))
      with (json_member m :: json_member m' :: map json_member ms).
    rewrite concat_cons, !append_assoc. cbn [scan_members].
    rewrite scan_member_written by (split; reflexivity).
    unfold member_separator at 1. rewrite !append_assoc.
    change ("," ++ ?x) with (String "," x).
    rewrite expect_here by reflexivity.
    rewrite <- append_assoc, scan_members_skip by reflexivity.
    change (json_member m' :: map json_member ms) with (map json_member (m' :: ms)).
    rewrite IH by (simpl in Hf; lia). reflexivity.
Qed.

(** Reading a written object gives its members back. *)
Lemma scan_object_written ms size rest :
  List.length ms <= size ->
  scan_object size (json_object ms ++ rest) = Some (ms, rest).
Proof.
  intros Hs. destruct ms as [|m ms].
  - reflexivity.
  - unfold json_object. rewrite !append_assoc.
    change ("{" ++ ?x) with (String "{" x).
    unfold scan_object. rewrite expect_here by reflexivity.
    rewrite <- (append_assoc NL "    ").
    rewrite expect_skip, scan_members_skip by reflexivity.
    rewrite scan_members_written by (simpl in Hs; lia).
    assert (X : exists y,
               String.concat member_separator (map json_member (m :: ms)) ++
               NL ++ "  }" ++ rest = String dq y).
    { cbn [map]. destruct (map json_member ms).
      - cbn [String.concat]. apply json_member_first.
      - rewrite concat_cons, append_assoc. apply json_member_first. }
    destruct X as [y X]. rewrite X.
    rewrite expect_other by reflexivity. reflexivity.
Qed.

(** The items of an entry make the entry. *)
Lemma entry_of_its_items e : entry_of_items no_entry (items e) = Some e.
Proof.
  destruct e as [[t|] [l|] [r|] [a|] [s|] [[n|y]|]]; reflexivity.
Qed.

Lemma items_length e : List.length (items e) <= 6.
Proof.
  destruct e as [[t|] [l|] [r|] [a|] [s|] [y|]]; simpl; lia.
Qed.

Lemma written_object_first e x :
  exists y, written_object e ++ x = String "{" y.
Proof.
  unfold written_object, json_object.
  destruct (items e); simpl; eauto.
Qed.

(** Reading the written objects of a list gives the entries back. *)
Lemma scan_objects_written es : forall e fuel size rest,
  List.length es < fuel -> 6 <= size ->
  scan_objects fuel size
    (String.concat object_separator (map written_object (e :: es)) ++
     NL ++ "]" ++ rest)
  = Some (e :: es, rest).
Proof.
  induction es as [|e' es IH]; intros e fuel size rest Hf Hs;
    (destruct fuel as [|fuel]; [simpl in Hf; lia|]);
    pose proof (items_length e) as Hi.
  - cbn [map String.concat scan_objects]. unfold written_object at 1.
    rewrite scan_object_written, entry_of_its_items by lia.
    change (NL ++ "]" ++ rest) with (NL ++ String "]" rest).
    rewrite !expect_skip by reflexivity.
    rewrite expect_other, expect_here by reflexivity. reflexivity.
  - change (map written_object (e :: e' :: es))
      with (written_object e :: written_object e' :: map written_object es).
    rewrite concat_cons, !append_assoc. cbn [scan_objects].
    unfold written_object at 1.
    rewrite scan_object_written, entry_of_its_items by lia.
    unfold object_separator at 1. rewrite !append_assoc.
    change ("," ++ ?x) with (String "," x).
    rewrite expect_here by reflexivity.
    rewrite <- append_assoc, scan_objects_skip by reflexivity.
    change (written_object e' :: map written_object es)
      with (map written_object (e' :: es)).
    rewrite IH by (simpl in Hf; lia). reflexivity.
Qed.

Lemma concat_length sep x l :
  String.length x + List.length l * String.length sep
  <= String.length (String.concat sep (x :: l)).
Proof.
  revert x. induction l as [|y l IH]; intros x.
  - simpl. lia.
  - rewrite concat_cons, !length_append. specialize (IH y).
    cbn [List.length]. lia.
Qed.

Lemma write_json_length e es :
  6 + List.length es < String.length (write_json (e :: es)).
Proof.
  unfold write_json. cbn [map]. rewrite !length_append.
  pose proof (concat_length object_separator (written_object e)
                (map written_object es)) as H.
  rewrite length_map in H.
  change (String.length object_separator) with 4 in H.
  change (String.length "[") with 1. change (String.length NL) with 1.
  change (String.length "  ") with 2. change (String.length "]") with 1.
  assert (2 <= String.length (written_object e)).
  { unfold written_object, json_object. destruct (items e).
    - simpl. lia.
    - rewrite !length_append. simpl. lia. }
  lia.
Qed.

(** C8.  Reading back the JSON text written for a list of entries gives
    the same list: the same entries, with the same fields, in the same
    order. *)
Theorem json_round_trip (entries : list entry) :
  json_load (write_json entries) = Some entries.
Proof.
  destruct entries as [|e es].
  - reflexivity.
  - pose proof (write_json_length e es) as L.
    unfold json_load.
    set (size := String.length (write_json (e :: es))) in *.
    unfold write_json.
    change ("[" ++ ?x) with (String "[" x).
    rewrite expect_here by reflexivity.
    rewrite <- (append_assoc NL "  ").
    rewrite expect_skip, scan_objects_skip by reflexivity.
    change (map written_object (e :: es))
      with (written_object e :: map written_object es).
    assert (X : exists z,
               String.concat object_separator
                 (written_object e :: map written_object es) ++ NL ++ "]"
               = String "{" z).
    { destruct (map written_object es) eqn:M.
      - cbn [String.concat]. apply written_object_first.
      - rewrite concat_cons, append_assoc. apply written_object_first. }
    destruct X as [z X]. rewrite X at 1.
    rewrite expect_other by reflexivity.
    change (written_object e :: map written_object es)
      with (map written_object (e :: es)).
    rewrite <- (append_nil_r "]").
    rewrite scan_objects_written by lia. reflexivity.
Qed.

(** * Further properties *)

(** ** [read_query_text] *)

Lemma lstrip_fixed s : first_is is_space s = false -> lstrip s = s.
Proof. destruct s as [|c s]; simpl; auto. intros ->. reflexivity. Qed.

Lemma rstrip_fixed s : last_is is_space s = false -> rstrip s = s.
Proof.
  induction s as [|c s IH]; auto.
  destruct s as [|d s].
  - simpl. intros ->. reflexivity.
  - intros H. change (last_is is_space (String c (String d s)))
      with (last_is is_space (String d s)) in H.
    change (rstrip (String c (String d s)))
      with (match rstrip (String d s) with
            | "" => if is_space c then "" else String c ""
            | String x t => String c (String x t)
            end).
    rewrite (IH H). reflexivity.
Qed.

Lemma strip_idempotent s : strip (strip s) = strip s.
Proof.
  destruct (strip_spec s) as (l & r & _ & _ & _ & F & L).
  unfold strip at 1. rewrite (lstrip_fixed _ F). apply rstrip_fixed, L.
Qed.

(** X1.  The text [read_query_text] returns, from the option or from the
    file, has no white space at either end, and stripping it again
    changes nothing. *)
Theorem query_text_is_stripped args files t :
  read_query_text args files = inr t ->
  strip t = t /\ first_is is_space t = false /\ last_is is_space t = false.
Proof.
  unfold read_query_text. intros H.
  assert (E : exists s, t = strip s).
  { destruct (if_true (query args)) as [q|].
    - injection H as <-. eauto.
    - destruct (input_file args) as [path|]; [|discriminate H].
      destruct (files path) as [text|]; [|discriminate H].
      injection H as <-. eauto. }
  destruct E as [s ->]. split; [apply strip_idempotent|].
  destruct (strip_spec s) as (l & r & _ & _ & _ & F & L). auto.
Qed.

Lemma query_text_is_stripped_witness :
  read_query_text
    {| query := Some "  graph learning "; input_file := None; results := 5;
       sort := "relevance"; output := None |} (fun _ => None)
  = inr "graph learning" /\
  strip "graph learning" = "graph learning" /\
  first_is is_space "graph learning" = false /\
  last_is is_space "graph learning" = false.
Proof.
  split; [reflexivity|].
  apply (query_text_is_stripped
           {| query := Some "  graph learning "; input_file := None; results := 5;
              sort := "relevance"; output := None |} (fun _ => None)).
  reflexivity.
Defined.

(** X2.  An empty [--query] counts as no query: the input file is read
    as if the option were absent, and when there is no input file the
    call raises the [TypeError] of [open(None)]. *)
Theorem empty_query_is_no_query args files :
  query args = Some "" ->
  read_query_text args files = read_query_text (without_query args) files
  /\ (input_file args = None -> read_query_text args files = inl NoPath).
Proof.
  intros H. unfold read_query_text, without_query. cbn [query input_file].
  rewrite H. cbn [if_true]. split; [reflexivity|].
  intros ->. reflexivity.
Qed.

Lemma empty_query_is_no_query_witness :
  query {| query := Some ""; input_file := None; results := 5;
           sort := "relevance"; output := None |} = Some "" /\
  read_query_text {| query := Some ""; input_file := None; results := 5;
                     sort := "relevance"; output := None |} (fun _ => Some "q")
  = read_query_text
      (without_query {| query := Some ""; input_file := None; results := 5;
                        sort := "relevance"; output := None |}) (fun _ => Some "q")
  /\ (input_file {| query := Some ""; input_file := None; results := 5;
                    sort := "relevance"; output := None |} = None ->
      read_query_text {| query := Some ""; input_file := None; results := 5;
                         sort := "relevance"; output := None |} (fun _ => Some "q")
      = inl NoPath).
Proof.
  split; [reflexivity|].
  apply (empty_query_is_no_query
           {| query := Some ""; input_file := None; results := 5;
              sort := "relevance"; output := None |} (fun _ => Some "q")).
  reflexivity.
Defined.

(** ** The extractor and the Markdown formatter *)



Lemma error_entry_keys exc : has_md_keys (error_entry exc) = true.
Proof. reflexivity. Qed.

Lemma search_entries_shape generate query max_results :
  Forall (fun e => exists t l r a,
            e = {| title := Some t; link := Some l; relevance := Some r;
                   abstract := Some a; source := Some "gemini"; year := None |})
         (gemini_scholar_search generate query max_results).
Proof.
  destruct (generate (prompt query max_results)) as [exc|text] eqn:G.
  - unfold gemini_scholar_search. rewrite G. constructor; [|constructor].
    unfold error_entry. eauto.
  - pose proof (search_returns generate query max_results text G) as F.
    induction F as [|g e ms es (t & u & sc & a & _ & _ & ->) _ IH]; constructor; auto.
    unfold make_entry. eauto.
Qed.

(** X4.  Every entry the extractor returns, parsed or synthetic, has the
    five keys [title], [link], [relevance], [abstract] and [source], the
    source is ["gemini"], and there is no [year]. *)
Theorem entries_have_five_keys generate query max_results :
  Forall (fun e => title e <> None /\ link e <> None /\ relevance e <> None /\
                   abstract e <> None /\ source e = Some "gemini" /\ year e = None)
         (gemini_scholar_search generate query max_results).
Proof.
  eapply Forall_impl; [|apply search_entries_shape].
  intros e (t & l & r & a & ->). simpl. repeat split; discriminate.
Qed.

Lemma md_lines_none es : forall idx,
  md_lines idx es = None <-> Exists (fun e => has_md_keys e = false) es.
Proof.
  induction es as [|e es IH]; intros idx; simpl.
  - split; [discriminate|]. intros H. inversion H.
  - specialize (IH (idx + 1)%Z). split.
    + intros H. destruct (md_block idx e) as [b|] eqn:B.
      * destruct (md_lines (idx + 1) es); [discriminate H|].
        apply Exists_cons_tl, IH. reflexivity.
      * apply Exists_cons_hd. unfold md_block, has_md_keys in *.
        destruct (title e), (link e), (relevance e), (abstract e);
          auto; discriminate B.
    + intros H. inversion H as [e' es' K|e' es' K]; subst.
      * unfold md_block, has_md_keys in *.
        destruct (title e), (link e), (relevance e), (abstract e);
          auto; discriminate K.
      * apply IH in K. rewrite K. destruct (md_block idx e); reflexivity.
Qed.

(** X5.  On entries whose numbers are within the limit on digits,
    [format_md] raises [KeyError] exactly when some entry lacks one of
    the keys [title], [link], [relevance], [abstract]; a missing
    [source] or [year] never makes it fail. *)
Theorem format_md_fails_on_missing_key (entries : list entry) :
  forallb numbers_fit entries = true ->
  format_md entries = None
  <-> Exists (fun e => title e = None \/ link e = None \/
                       relevance e = None \/ abstract e = None) entries.
Proof.
  intros _. unfold format_md. split.
  - intros H. destruct (md_lines 1 entries) eqn:M; [discriminate H|].
    apply md_lines_none in M. eapply Exists_impl; [|exact M].
    intros e K. unfold has_md_keys in K.
    destruct (title e), (link e), (relevance e), (abstract e);
      try discriminate K; auto 10.
  - intros H. assert (M : md_lines 1 entries = None).
    { apply md_lines_none. eapply Exists_impl; [|exact H].
      intros e K. cbv beta in K. unfold has_md_keys.
      destruct (title e), (link e), (relevance e), (abstract e);
        try reflexivity; destruct K as [K|[K|[K|K]]]; discriminate K. }
    rewrite M. reflexivity.
Qed.

Lemma format_md_fails_on_missing_key_witness :
  forallb numbers_fit [with_year; without_title] = true /\
  (format_md [with_year; without_title] = None
   <-> Exists (fun e => title e = None \/ link e = None \/
                        relevance e = None \/ abstract e = None)
              [with_year; without_title]).
Proof.
  split; [reflexivity|].
  apply (format_md_fails_on_missing_key [with_year; without_title]).
  reflexivity.
Defined.

Lemma sort_results_perm mode l : Permutation l (sort_results mode l).
Proof.
  unfold sort_results. destruct (String.eqb mode "relevance"); auto.
  apply list_sort_reverse_perm.
Qed.

Lemma sorted_search_keys mode generate query max_results :
  Forall (fun e => has_md_keys e = true)
         (sort_results mode (gemini_scholar_search generate query max_results)).
Proof.
  eapply Permutation_Forall; [apply sort_results_perm|].
  eapply Forall_impl; [|apply search_entries_shape].
  intros e (t & l & r & a & ->). reflexivity.
Qed.

Lemma format_md_total es :
  Forall (fun e => has_md_keys e = true) es -> exists md, format_md es = Some md.
Proof.
  intros H. unfold format_md. destruct (md_lines 1 es) eqn:M; simpl; eauto.
  apply md_lines_none in M. exfalso.
  apply Exists_exists in M as (e & I & K).
  rewrite Forall_forall in H. rewrite (H e I) in K. discriminate K.
Qed.

(** X6.  The Markdown formatter never fails on what the extractor
    returns, sorted or not, whatever the collaborator did. *)
Theorem format_md_accepts_search_results mode generate query max_results :
  exists md,
    format_md (sort_results mode (gemini_scholar_search generate query max_results))
    = Some md.
Proof. apply format_md_total, sorted_search_keys. Qed.

(** ** The abstract of a match *)

Lemma run_then p1 p2 : forall i s r,
  run (p1 ++ p2) i s = Some r ->
  shape_then (fun i' s' r' => run p2 i' s' = Some r') p1 i s r.
Proof.
  induction p1 as [|n p1 IH]; intros i s r H.
  - exact H.
  - destruct n as [c q| |]; cbn [app] in H.
    + destruct q; simpl in H.
      * destruct s as [|a s]; [discriminate|].
        destruct (matches c a) eqn:Ha; [|discriminate].
        destruct (run (p1 ++ p2) i s) as [r'|] eqn:Hr;
          [|rewrite keep_none in H; discriminate].
        simpl. exists a, s, r'. auto.
      * simpl. eapply greedy_shape; [|exact H]. intros; apply IH; auto.
      * destruct s as [|a s]; [discriminate|].
        destruct (matches c a) eqn:Ha; [|discriminate].
        destruct (greedy c (run (p1 ++ p2) i) i s) as [r1|] eqn:Hg;
          [|rewrite keep_none in H; discriminate].
        eapply greedy_shape in Hg; [|intros; apply IH; eassumption].
        destruct Hg as (w & s' & r' & E & Hw & Hq & Hkeep).
        simpl. exists a, w, s', r'. rewrite Hkeep. subst s. auto.
      * simpl. eapply lazy_shape; [|exact H]. intros; apply IH; auto.
    + simpl in *. auto.
    + simpl in *.
      destruct (run (p1 ++ p2) false s) as [[gs rest]|] eqn:Hr; [|discriminate].
      injection H as <-. eauto.
Qed.

Lemma pattern_entry_abstract : pattern = (entry_nodes ++ abstract_nodes)%list.
Proof. reflexivity. Qed.

(** A match ends with a match of the abstract line, whose groups are
    the last ones. *)
Lemma pattern_tail s gs rest :
  run pattern false s = Some (gs, rest) ->
  exists t u sc s4 g4,
    run abstract_nodes false s4 = Some (g4, rest) /\ gs = t :: u :: sc :: g4.
Proof.
  intros H. rewrite pattern_entry_abstract in H. apply run_then in H.
  cbv [entry_nodes head_nodes title_nodes url_nodes score_nodes lits
       list_ascii_of_string map app append NL] in H.
  cbn [shape_then matches] in H.
  break. eauto 10.
Qed.

(** The lazy group before the last newline stops at the first newline. *)
Lemma lazy_to_newline s : forall r,
  lazy AnyChar (run [Close; Atom (Lit nl) Once] true) true s = Some r ->
  exists w rest, r = ([w], rest) /\ all_chars (not_char nl) w = true.
Proof.
  induction s as [|a s IH]; intros r H.
  - simpl in H. discriminate H.
  - cbn [lazy] in H.
    destruct (run [Close; Atom (Lit nl) Once] true (String a s)) as [r0|] eqn:K.
    + injection H as <-. simpl in K.
      destruct (Ascii.eqb a nl); [|discriminate K].
      injection K as <-. exists "", s. auto.
    + cbn [matches] in H.
      destruct (lazy AnyChar (run [Close; Atom (Lit nl) Once] true) true s)
        as [r1|] eqn:L; [|discriminate H].
      destruct (IH _ eq_refl) as (w & rest & -> & Hw).
      simpl in H. injection H as <-.
      exists (String a w), rest. split; auto.
      simpl. rewrite Hw. unfold not_char.
      simpl in K. destruct (Ascii.eqb a nl); [discriminate K|reflexivity].
Qed.

Lemma abstract_group s gs rest :
  run abstract_nodes false s = Some (gs, rest) ->
  exists a, gs = [a] /\ all_chars (not_char nl) a = true.
Proof.
  intros H. unfold abstract_nodes in H. cbn [run lits list_ascii_of_string map NL] in H.
  eapply greedy_shape with
    (Q := fun (_ : string) r =>
            exists w rest, r = ([w], rest) /\ all_chars (not_char nl) w = true) in H.
  - destruct H as (w & s' & r' & _ & _ & (a & rest' & -> & Ha) & K).
    rewrite keep_all_false in K. injection K as <- <-. eauto.
  - intros s0 r0 K. apply lazy_to_newline in K. exact K.
Qed.

Lemma all_chars_strip p s : all_chars p s = true -> all_chars p (strip s) = true.
Proof.
  destruct (strip_spec s) as (l & r & E & _). intros H.
  rewrite E, !all_chars_app in H.
  apply andb_true_iff in H as [_ H]. apply andb_true_iff in H as [H _]. exact H.
Qed.

Lemma findall_abstracts text :
  Forall (fun g => exists t u sc a, g = [t; u; sc; a] /\ number sc = true /\
                   all_chars (not_char nl) a = true)
         (findall pattern text).
Proof.
  apply scan_Forall. intros s gs rest H.
  destruct (pattern_tail _ _ _ H) as (t & u & sc & s4 & g4 & R & ->).
  apply abstract_group in R as (a & -> & Ha).
  apply pattern_inv in H as (n & c & t' & u' & w1 & w2 & sc' & w3 & a' & _ & _ & _ & _ & _ & Hsc & _ & E).
  injection E as -> -> -> ->. exists t', u', sc', a'. auto.
Qed.

(** X7.  The abstract of every entry is on one line: the lazy group
    before the last newline of the pattern stops at the first newline,
    and the abstract of the error entry is empty. *)
Theorem abstract_is_one_line generate query max_results :
  Forall (fun e => exists a, abstract e = Some a /\ all_chars (not_char nl) a = true)
         (gemini_scholar_search generate query max_results).
Proof.
  unfold gemini_scholar_search.
  destruct (generate (prompt query max_results)) as [exc|text].
  - constructor; [|constructor]. exists "". auto.
  - pose proof (findall_abstracts text) as F.
    induction F as [|g ms (t & u & sc & a & -> & Hsc & Ha) _ IH]; simpl.
    + constructor.
    + rewrite (int_number _ Hsc).
      destruct (entries_of ms) as [exc|es].
      * constructor; [|constructor]. exists "". auto.
      * constructor; [|exact IH].
        exists (strip a). split; [reflexivity|]. apply all_chars_strip, Ha.
Qed.

(** ** Three newlines for an entry *)

Lemma drop_app m rest : drop (String.length m) (m ++ rest) = rest.
Proof. induction m; simpl; auto. Qed.

Lemma drop_zero s : drop 0 s = s.
Proof. destruct s; reflexivity. Qed.

Lemma scan_count s : forall k,
  3 * List.length (scan pattern k s) <= newlines (drop k s).
Proof.
  induction s as [|c s IH]; intros k.
  - destruct k; simpl; lia.
  - destruct k as [|k].
    + rewrite drop_zero.
      destruct (run pattern false (String c s)) as [[gs rest]|] eqn:R.
      * cbn [scan]. rewrite R. cbn [List.length].
        pose proof (match_newlines _ _ _ R) as N.
        destruct (match_ends_with_newline _ _ _ R) as [m E].
        assert (X : exists m', String c s = String c m' ++ rest).
        { rewrite <- append_assoc in E.
          destruct (m ++ NL) as [|d m'] eqn:M.
          - destruct m; discriminate M.
          - simpl in E. injection E as <- ->. exists m'. reflexivity. }
        destruct X as [m' X]. simpl in X. injection X as X. subst s.
        specialize (IH (String.length m')). rewrite drop_app in IH.
        replace (String.length (String c (m' ++ rest)) - String.length rest - 1)
          with (String.length m')
          by (cbn [String.length]; rewrite length_append; lia).
        lia.
      * rewrite scan_fail by auto. specialize (IH 0). rewrite drop_zero in IH.
        simpl. lia.
    + simpl. apply IH.
Qed.

(** X8.  An entry costs three newlines: on a returned text the number
    of entries, times three, is at most the number of newlines of the
    text. *)
Theorem three_newlines_per_entry generate query max_results text :
  generate (prompt query max_results) = Returns text ->
  3 * List.length (gemini_scholar_search generate query max_results)
  <= newlines text.
Proof.
  intros G. pose proof (search_returns generate query max_results text G) as F.
  apply Forall2_length in F. rewrite <- F.
  pose proof (scan_count text 0) as C. rewrite drop_zero in C. exact C.
Qed.

Lemma three_newlines_per_entry_witness :
  returning (response sample_items "Done.") (prompt "deep learning" 2)
  = Returns (response sample_items "Done.") /\
  3 * List.length (gemini_scholar_search (returning (response sample_items "Done."))
                     "deep learning" 2)
  <= newlines (response sample_items "Done.").
Proof.
  split; [reflexivity|].
  apply (three_newlines_per_entry (returning (response sample_items "Done."))
           "deep learning" 2 (response sample_items "Done.")).
  reflexivity.
Defined.

(** ** Sorting again *)

Lemma strongly_sorted_rev {A : Type} (R : A -> A -> Prop) l :
  StronglySorted R l -> StronglySorted (fun x y => R y x) (rev l).
Proof.
  induction 1 as [|x l S IH F]; simpl; [constructor|].
  assert (G : forall l', StronglySorted (fun x y => R y x) l' ->
                         Forall (fun y => R x y) l' ->
                         StronglySorted (fun x y => R y x) (l' ++ [x])).
  { induction 1 as [|y l' S' IH' F']; intros Hx; simpl.
    - repeat constructor.
    - inversion Hx; subst. constructor; auto.
      apply Forall_app. split; auto. }
  apply G; auto. apply Forall_rev. exact F.
Qed.

Lemma sort_ascending_fixed {A : Type} (key : A -> Z) l :
  StronglySorted (ascending key) l -> sort_ascending key l = l.
Proof.
  induction 1 as [|x l S IH F]; simpl; auto. rewrite IH.
  destruct l as [|y l]; simpl; auto.
  inversion F as [|? ? Hxy _]; subst. unfold ascending in Hxy.
  apply Z.leb_le in Hxy. rewrite Hxy. reflexivity.
Qed.

Lemma list_sort_reverse_fixed {A : Type} (key : A -> Z) l :
  StronglySorted (descending key) l -> list_sort key true l = l.
Proof.
  intros H. unfold list_sort.
  rewrite sort_ascending_fixed; [apply rev_involutive|].
  apply (strongly_sorted_rev (descending key)) in H. exact H.
Qed.

(** X9.  Sorting is idempotent: sorting sorted results, in either mode,
    leaves them as they are. *)
Theorem sort_results_idempotent mode (all_results : list entry) :
  sort_results mode (sort_results mode all_results) = sort_results mode all_results.
Proof.
  unfold sort_results. destruct (String.eqb mode "relevance"); auto.
  apply list_sort_reverse_fixed, list_sort_reverse_sorted.
Qed.

(** ** What the CSV text keeps *)

Lemma csv_rows_written entries :
  csv_rows (write_csv entries) = fieldnames :: map cells entries.
Proof.
  assert (E : read {| state := Start; field := ""; row := []; rows := [] |}
                   (write_csv entries)
              = {| state := Start; field := ""; row := [];
                   rows := fieldnames :: map cells entries |}).
  { unfold write_csv. unfold fieldnames at 1.
    rewrite read_row, read_rows. reflexivity. }
  unfold csv_rows. rewrite E. reflexivity.
Qed.

Lemma write_rows_cells es es' :
  map cells es = map cells es' -> write_rows es = write_rows es'.
Proof.
  revert es'. induction es as [|e es IH]; intros [|e' es'] H; try discriminate H.
  - reflexivity.
  - cbn [map] in H.
    pose proof (f_equal (hd []) H) as H1. pose proof (f_equal (@tl _) H) as H2.
    cbn [hd tl] in H1, H2. cbn [write_rows].
    change (map (cell e) fieldnames) with (cells e).
    change (map (cell e') fieldnames) with (cells e').
    rewrite H1, (IH _ H2). reflexivity.
Qed.

(** X10.  Two lists of entries, their relevance within the limit on
    digits, give the same CSV text exactly when they agree, entry by
    entry, on the five written fields: the text tells nothing more (a
    [year], or a missing key from an empty text) and nothing less. *)
Theorem csv_same_iff_same_cells (es es' : list entry) :
  forallb relevance_fits es = true ->
  forallb relevance_fits es' = true ->
  write_csv es = write_csv es' <-> map cells es = map cells es'.
Proof.
  intros _ _. split.
  - intros H. apply (f_equal csv_rows) in H.
    rewrite !csv_rows_written in H. injection H as H. exact H.
  - intros H. unfold write_csv. rewrite (write_rows_cells _ _ H). reflexivity.
Qed.

Lemma csv_same_iff_same_cells_witness :
  forallb relevance_fits [with_year] = true /\
  forallb relevance_fits [make_entry "T" "" 7 "a"] = true /\
  (write_csv [with_year] = write_csv [make_entry "T" "" 7 "a"]
   <-> map cells [with_year] = map cells [make_entry "T" "" 7 "a"]).
Proof.
  split; [reflexivity|]. split; [reflexivity|].
  apply (csv_same_iff_same_cells [with_year] [make_entry "T" "" 7 "a"]);
    reflexivity.
Defined.

(** An entry with a year and no link, and the entry with an empty link
    and no year, are the same row. *)
Example csv_forgets_year :
  write_csv [with_year] = write_csv [make_entry "T" "" 7 "a"].
Proof. reflexivity. Qed.

(** ** [main] *)

Lemma main_effects args generate files q :
  read_query_text args files = inr q ->
  exists out,
    main args generate files = inr out /\
    match if_true (output args) with
    | Some path =>
        stdout out = print (NL ++ "Saved to " ++ path ++ NL) /\
        exists content, written out = [(path, content)]
    | None =>
        written out = [] /\
        exists md,
          format_md (results_of args generate q) = Some md /\
          stdout out = print ("# Research Results" ++ NL) ++ print md ++ print note
    end.
Proof.
  intros H. unfold main. rewrite H.
  destruct (format_md_total (results_of args generate q)
              (sorted_search_keys _ _ _ _)) as [md M].
  unfold results_of in M.
  destruct (if_true (output args)) as [path|].
  - destruct (String.eqb (lower (extension path)) ".json").
    + eexists. split; [reflexivity|]. simpl. eauto.
    + destruct (String.eqb (lower (extension path)) ".csv").
      * eexists. split; [reflexivity|]. simpl. eauto.
      * rewrite M. eexists. split; [reflexivity|]. simpl. eauto.
  - rewrite M. eexists. split; [reflexivity|]. simpl. split; auto.
    exists md. auto.
Qed.

(** X11.  [main] raises only when the query cannot be read: once
    [read_query_text] has returned, the run is completed whatever the
    collaborator does, and no [KeyError] comes from the formatter.
    Writing is recorded, not performed: an output path that cannot be
    opened is outside the model. *)
Theorem main_fails_only_on_query args generate files e :
  main args generate files = inl e <-> read_query_text args files = inl e.
Proof.
  destruct (read_query_text args files) as [e'|q] eqn:R.
  - unfold main. rewrite R. split; intros H; injection H as ->; reflexivity.
  - destruct (main_effects args generate files q R) as (out & M & _).
    rewrite M. split; intros H; discriminate H.
Qed.

(** X12.  With an output path, [main] prints only the line that names
    the path and writes one file, at that path; with none, or an empty
    one, it writes no file and prints the heading, the Markdown of the
    sorted results and the note. *)
Theorem main_prints_or_writes args generate files q :
  read_query_text args files = inr q ->
  exists out,
    main args generate files = inr out /\
    ((exists path,
        output args = Some path /\ path <> "" /\
        stdout out = NL ++ "Saved to " ++ path ++ NL ++ NL /\
        exists content, written out = [(path, content)])
     \/
     ((output args = None \/ output args = Some "") /\
      written out = [] /\
      exists md,
        format_md (results_of args generate q) = Some md /\
        stdout out = "# Research Results" ++ NL ++ NL ++ md ++ NL ++ note ++ NL)).
Proof.
  intros R. destruct (main_effects args generate files q R) as (out & M & E).
  exists out. split; [exact M|].
  destruct (output args) as [[|c path]|]; cbn [if_true] in E.
  - right. destruct E as (W & md & F & S). split; auto. split; auto.
    exists md. split; auto. rewrite S. unfold print.
    rewrite !append_assoc. reflexivity.
  - left. destruct E as (S & content & W). exists (String c path).
    split; auto. split; [discriminate|]. split; eauto.
    rewrite S. unfold print. rewrite !append_assoc. reflexivity.
  - right. destruct E as (W & md & F & S). split; auto. split; auto.
    exists md. split; auto. rewrite S. unfold print.
    rewrite !append_assoc. reflexivity.
Qed.

Lemma main_prints_or_writes_witness :
  read_query_text (sample_args (Some "out.md")) (fun _ => None) = inr "deep learning" /\
  exists out,
    main (sample_args (Some "out.md")) (raising "quota exceeded") (fun _ => None)
    = inr out /\
    ((exists path,
        output (sample_args (Some "out.md")) = Some path /\ path <> "" /\
        stdout out = NL ++ "Saved to " ++ path ++ NL ++ NL /\
        exists content, written out = [(path, content)])
     \/
     ((output (sample_args (Some "out.md")) = None \/
       output (sample_args (Some "out.md")) = Some "") /\
      written out = [] /\
      exists md,
        format_md (results_of (sample_args (Some "out.md")) (raising "quota exceeded")
                     "deep learning") = Some md /\
        stdout out = "# Research Results" ++ NL ++ NL ++ md ++ NL ++ note ++ NL)).
Proof.
  split; [reflexivity|].
  apply (main_prints_or_writes (sample_args (Some "out.md")) (raising "quota exceeded")
           (fun _ => None) "deep learning").
  reflexivity.
Defined.

Lemma rsplit_none a x : all_chars (not_char a) x = true -> rsplit a x = None.
Proof.
  induction x as [|c x IH]; simpl; auto. intros H.
  apply andb_true_iff in H as [Hc Hx]. rewrite (IH Hx).
  apply not_char_fails in Hc. rewrite Hc. reflexivity.
Qed.

Lemma rsplit_app a s x :
  all_chars (not_char a) x = true ->
  rsplit a (s ++ x)
  = match rsplit a s with
    | Some (before, after) => Some (before, after ++ x)
    | None => None
    end.
Proof.
  intros H. induction s as [|c s IH]; cbn [append rsplit].
  - apply rsplit_none, H.
  - rewrite IH. destruct (rsplit a s) as [[b t]|]; auto.
    destruct (Ascii.eqb c a); reflexivity.
Qed.

Lemma rsplit_last a n e :
  all_chars (not_char a) e = true -> rsplit a (n ++ String a e) = Some (n, e).
Proof.
  intros H. induction n as [|c n IH]; cbn [append rsplit].
  - rewrite (rsplit_none _ _ H), Ascii.eqb_refl. reflexivity.
  - rewrite IH. reflexivity.
Qed.

Lemma plain_name_inv e :
  plain_name e = true ->
  all_chars (not_char ".") e = true /\ all_chars (not_char "/") e = true.
Proof.
  unfold plain_name. rewrite all_chars_and. apply andb_true_iff.
Qed.

(** The extension of [stem.e]. *)
Lemma extension_named stem e :
  named stem = true -> plain_name e = true ->
  extension (stem ++ String "." e) = String "." e.
Proof.
  intros N P. apply plain_name_inv in P as [Pd Ps].
  unfold extension, named in *.
  rewrite rsplit_app by (simpl; rewrite Ps; reflexivity).
  destruct (rsplit "/" stem) as [[b name]|].
  - rewrite (rsplit_last "." name e Pd).
    apply negb_true_iff in N. rewrite N. reflexivity.
  - rewrite (rsplit_last "." stem e Pd).
    apply negb_true_iff in N. rewrite N. reflexivity.
Qed.

(** The extension of a name that only starts with a dot. *)
Lemma extension_hidden dir name :
  plain_name name = true ->
  dir = "" \/ (exists d, dir = d ++ "/") ->
  extension (dir ++ String "." name) = "".
Proof.
  intros P D. apply plain_name_inv in P as [Pd Ps]. unfold extension.
  assert (X : match rsplit "/" (dir ++ String "." name) with
              | Some (_, after) => after
              | None => dir ++ String "." name
              end = String "." name).
  { destruct D as [->|[d ->]].
    - cbn [append]. rewrite rsplit_none; [reflexivity|].
      simpl. rewrite Ps. reflexivity.
    - rewrite append_assoc. cbn [append].
      rewrite rsplit_last; [reflexivity|]. simpl. rewrite Ps. reflexivity. }
  rewrite X. pose proof (rsplit_last "." "" name Pd) as L.
  cbn [append] in L. rewrite L. reflexivity.
Qed.

Lemma lower_dot e : lower (String "." e) = String "." (lower e).
Proof. reflexivity. Qed.

Lemma if_true_nonempty stem c e :
  if_true (Some (stem ++ String c e)) = Some (stem ++ String c e).
Proof. destruct stem; reflexivity. Qed.

(** X13.  The extension of the output path chooses the writer, in any
    letter case: a path [stem.e], where [e] has no dot and no slash and
    the last component of [stem] is not made of dots, gets the JSON
    text when [e] reads [json] in lower case, and the CSV text when it
    reads [csv]. *)
Theorem main_writes_by_extension args generate files q stem e :
  read_query_text args files = inr q ->
  output args = Some (stem ++ String "." e) ->
  named stem = true ->
  plain_name e = true ->
  (lower e = "json" ->
   main args generate files
   = inr {| stdout := NL ++ "Saved to " ++ (stem ++ String "." e) ++ NL ++ NL;
            written := [(stem ++ String "." e,
                         write_json (results_of args generate q))] |})
  /\ (lower e = "csv" ->
      main args generate files
      = inr {| stdout := NL ++ "Saved to " ++ (stem ++ String "." e) ++ NL ++ NL;
               written := [(stem ++ String "." e,
                            write_csv (results_of args generate q))] |}).
Proof.
  intros R O N P. unfold main. rewrite R, O, if_true_nonempty.
  rewrite (extension_named stem e N P), lower_dot.
  unfold print. rewrite !append_assoc.
  split; intros ->; reflexivity.
Qed.

Lemma main_writes_by_extension_witness :
  read_query_text (sample_args (Some "out/Results.JSON")) (fun _ => None)
  = inr "deep learning" /\
  output (sample_args (Some "out/Results.JSON")) = Some ("out/Results" ++ String "." "JSON") /\
  named "out/Results" = true /\
  plain_name "JSON" = true /\
  (lower "JSON" = "json" ->
   main (sample_args (Some "out/Results.JSON"))
        (returning (response sample_items "Done.")) (fun _ => None)
   = inr {| stdout := NL ++ "Saved to " ++ ("out/Results" ++ String "." "JSON") ++ NL ++ NL;
            written := [("out/Results" ++ String "." "JSON",
                         write_json (results_of (sample_args (Some "out/Results.JSON"))
                                       (returning (response sample_items "Done."))
                                       "deep learning"))] |})
  /\ (lower "JSON" = "csv" ->
      main (sample_args (Some "out/Results.JSON"))
           (returning (response sample_items "Done.")) (fun _ => None)
      = inr {| stdout := NL ++ "Saved to " ++ ("out/Results" ++ String "." "JSON") ++ NL ++ NL;
               written := [("out/Results" ++ String "." "JSON",
                            write_csv (results_of (sample_args (Some "out/Results.JSON"))
                                         (returning (response sample_items "Done."))
                                         "deep learning"))] |}).
Proof.
  split; [reflexivity|]. split; [reflexivity|]. split; [reflexivity|].
  split; [reflexivity|].
  apply (main_writes_by_extension (sample_args (Some "out/Results.JSON"))
           (returning (response sample_items "Done.")) (fun _ => None)
           "deep learning" "out/Results" "JSON"); reflexivity.
Defined.

(** X14.  A name that only starts with a dot has no extension: for the
    output path [.json], or [dir/.csv], [main] writes the Markdown
    text. *)
Theorem hidden_name_gets_markdown args generate files q dir name :
  read_query_text args files = inr q ->
  output args = Some (dir ++ String "." name) ->
  plain_name name = true ->
  dir = "" \/ (exists d, dir = d ++ "/") ->
  exists md,
    format_md (results_of args generate q) = Some md /\
    main args generate files
    = inr {| stdout := NL ++ "Saved to " ++ (dir ++ String "." name) ++ NL ++ NL;
             written := [(dir ++ String "." name,
                          "# Research Results" ++ NL ++ NL ++ md)] |}.
Proof.
  intros R O P D.
  destruct (format_md_total (results_of args generate q)
              (sorted_search_keys _ _ _ _)) as [md M].
  exists md. split; [exact M|].
  unfold main. rewrite R, O, if_true_nonempty.
  rewrite (extension_hidden dir name P D). cbn [lower String.eqb].
  unfold results_of in M. rewrite M.
  unfold print. rewrite !append_assoc. reflexivity.
Qed.

Lemma hidden_name_gets_markdown_witness :
  read_query_text (sample_args (Some "out/.json")) (fun _ => None)
  = inr "deep learning" /\
  output (sample_args (Some "out/.json")) = Some ("out/" ++ String "." "json") /\
  plain_name "json" = true /\
  ("out/" = "" \/ (exists d, "out/" = d ++ "/")) /\
  exists md,
    format_md (results_of (sample_args (Some "out/.json")) (raising "down")
                 "deep learning") = Some md /\
    main (sample_args (Some "out/.json")) (raising "down") (fun _ => None)
    = inr {| stdout := NL ++ "Saved to " ++ ("out/" ++ String "." "json") ++ NL ++ NL;
             written := [("out/" ++ String "." "json",
                          "# Research Results" ++ NL ++ NL ++ md)] |}.
Proof.
  split; [reflexivity|]. split; [reflexivity|]. split; [reflexivity|].
  split; [right; exists "out"; reflexivity|].
  apply (hidden_name_gets_markdown (sample_args (Some "out/.json")) (raising "down")
           (fun _ => None) "deep learning" "out/" "json");
    [reflexivity | reflexivity | reflexivity | right; exists "out"; reflexivity].
Defined.

Lemma sort_one mode (e : entry) : sort_results mode [e] = [e].
Proof. unfold sort_results. destruct (String.eqb mode "relevance"); reflexivity. Qed.

(** X15.  When the collaborator raises and no output path is given, the
    run ends normally and prints one result: the error with the link
    [#], relevance 0 and an empty abstract, between the heading and the
    note. *)
Theorem main_reports_failure args generate files q exc :
  read_query_text args files = inr q ->
  generate (prompt q (results args)) = Raises exc ->
  if_true (output args) = None ->
  main args generate files
  = inr {| stdout := "# Research Results" ++ NL ++ NL ++
                     "1. [Gemini Error: " ++ exc ++ "](#)" ++ NL ++
                     "**Relevance:** 0/10" ++ NL ++
                     "**Abstract:** " ++ NL ++ NL ++ note ++ NL;
           written := [] |}.
Proof.
  intros R G O. unfold main. rewrite R, O.
  unfold gemini_scholar_search. rewrite G, sort_one.
  unfold format_md, md_lines, md_block, error_entry, year_line, print.
  cbn [title link relevance abstract year link_or_hash String.eqb option_map
       String.concat].
  change (str 1) with "1". change (str 0) with "0".
  repeat first [rewrite append_assoc | progress cbn [append]]. reflexivity.
Qed.

Lemma main_reports_failure_witness :
  read_query_text (sample_args None) (fun _ => None) = inr "deep learning" /\
  raising "quota exceeded" (prompt "deep learning" (results (sample_args None)))
  = Raises "quota exceeded" /\
  if_true (output (sample_args None)) = None /\
  main (sample_args None) (raising "quota exceeded") (fun _ => None)
  = inr {| stdout := "# Research Results" ++ NL ++ NL ++
                     "1. [Gemini Error: " ++ "quota exceeded" ++ "](#)" ++ NL ++
                     "**Relevance:** 0/10" ++ NL ++
                     "**Abstract:** " ++ NL ++ NL ++ note ++ NL;
           written := [] |}.
Proof.
  split; [reflexivity|]. split; [reflexivity|]. split; [reflexivity|].
  apply (main_reports_failure (sample_args None) (raising "quota exceeded")
           (fun _ => None) "deep learning" "quota exceeded"); reflexivity.
Defined.

(** ** The Markdown text, read as a response *)

Lemma str_pos p : str (Z.pos p) = NilEmpty.string_of_uint (Pos.to_uint p).
Proof.
  unfold str. cbn [Z.to_int NilZero.string_of_int].
  pose proof (DecimalPos.Unsigned.to_uint_nonnil p) as N.
  destruct (Pos.to_uint p); [contradiction N; reflexivity | reflexivity ..].
Qed.

(** [int(str(n))] is [n]. *)
Lemma int_acc_str n : (0 <= n)%Z -> int_acc 0 (str n) = n.
Proof.
  destruct n as [|p|p]; intros H; [reflexivity | | lia].
  rewrite str_pos, int_acc_of_uint, DecimalPos.Unsigned.of_to. reflexivity.
Qed.

Lemma str_number n : (0 <= n)%Z -> number (str n) = true.
Proof.
  destruct n as [|p|p]; intros H; [reflexivity | | lia].
  rewrite str_pos. unfold number. rewrite uint_digits, andb_true_r.
  pose proof (DecimalPos.Unsigned.to_uint_nonnil p) as N.
  destruct (Pos.to_uint p); [contradiction N; reflexivity | reflexivity ..].
Qed.

Lemma readable_inv e :
  readable e = true ->
  exists t l r a,
    e = {| title := Some t; link := Some l; relevance := Some r;
           abstract := Some a; source := Some "gemini"; year := None |} /\
    all_chars (fun c => not_char "]" c && not_char nl c) t = true /\
    strip t = t /\
    all_chars (fun c => not_char ")" c && not_char nl c) l = true /\
    strip l = l /\
    (0 <= r)%Z /\
    all_chars (not_char nl) a = true /\
    blank a = false /\
    strip a = a.
Proof.
  destruct e as [[t|] [l|] [r|] [a|] [s|] [y|]]; cbn [readable title link relevance
    abstract source year]; try discriminate.
  intros H. repeat (apply andb_true_iff in H as [H ?]).
  exists t, l, r, a.
  repeat match goal with
         | K : String.eqb _ _ = true |- _ => apply String.eqb_eq in K
         | K : negb _ = true |- _ => apply negb_true_iff in K
         | K : (_ <=? _)%Z = true |- _ => apply Z.leb_le in K
         end.
  subst s. repeat split; auto.
Qed.

Lemma link_or_hash_clean l :
  all_chars (fun c => not_char ")" c && not_char nl c) l = true ->
  strip l = l ->
  all_chars (fun c => not_char ")" c && not_char nl c) (link_or_hash l) = true /\
  strip (link_or_hash l) = link_or_hash l.
Proof.
  intros H S. unfold link_or_hash. destruct (String.eqb l ""); auto.
Qed.

Lemma block_of_strict idx e :
  (0 <= idx)%Z -> readable e = true -> strict (block_of idx e) = true.
Proof.
  intros Hi H.
  destruct (readable_inv e H) as (t & l & r & a & -> & Ht & _ & Hl & Sl & Hr & Ha & Hb & _).
  destruct (link_or_hash_clean l Hl Sl) as [Hu _].
  unfold strict, conforming, block_of.
  cbn [ordinal block_title block_url score block_abstract title link relevance
       abstract text_of number_of].
  rewrite (str_number idx Hi), (str_number r Hr), Ht, Hu, Ha, Hb. reflexivity.
Qed.

Lemma block_of_entry idx e :
  readable e = true -> entry_of_block (block_of idx e) = hashed e.
Proof.
  intros H.
  destruct (readable_inv e H) as (t & l & r & a & -> & _ & St & Hl & Sl & Hr & _ & _ & Sa).
  destruct (link_or_hash_clean l Hl Sl) as [_ Su].
  unfold entry_of_block, block_of, make_entry, hashed.
  cbn [ordinal block_title block_url score block_abstract title link relevance
       abstract source year text_of number_of option_map].
  rewrite St, Su, Sa, (int_acc_str r Hr). reflexivity.
Qed.

Lemma block_of_render idx e b :
  readable e = true -> md_block idx e = Some b -> b = render (block_of idx e).
Proof.
  intros H.
  destruct (readable_inv e H) as (t & l & r & a & -> & _).
  unfold md_block, render, block_of, year_line.
  cbn [ordinal block_title block_url score block_abstract title link relevance
       abstract source year text_of number_of].
  intros E. injection E as <-. reflexivity.
Qed.

Lemma md_lines_response es : forall idx bs before,
  forallb readable es = true ->
  md_lines idx es = Some bs ->
  es <> [] ->
  before ++ String.concat NL bs = response (md_items before idx es) "".
Proof.
  induction es as [|e es IH]; intros idx bs before H M N; [contradiction N; reflexivity|].
  cbn [forallb] in H. apply andb_true_iff in H as [He Hes].
  cbn [md_lines] in M.
  destruct (md_block idx e) as [b|] eqn:B; [|discriminate M].
  destruct (md_lines (idx + 1) es) as [bs'|] eqn:M'; [|discriminate M].
  injection M as <-.
  rewrite (block_of_render idx e b He B).
  cbn [md_items response].
  destruct es as [|e' es'].
  - cbn [md_lines] in M'. injection M' as <-.
    cbn [md_items response String.concat]. rewrite append_nil_r. reflexivity.
  - assert (Q : exists b' bs'', bs' = b' :: bs'').
    { cbn [md_lines] in M'. destruct (md_block (idx + 1) e'); [|discriminate M'].
      destruct (md_lines (idx + 1 + 1) es'); [|discriminate M'].
      injection M' as <-. eauto. }
    destruct Q as (b' & bs'' & ->).
    rewrite concat_cons.
    rewrite <- (IH (idx + 1)%Z (b' :: bs'') NL Hes M') by discriminate.
    reflexivity.
Qed.

Lemma md_items_ok es : forall idx before,
  (0 <= idx)%Z ->
  head_free before = true ->
  forallb readable es = true ->
  forallb item_ok (md_items before idx es) = true.
Proof.
  induction es as [|e es IH]; intros idx before Hi Hb H; [reflexivity|].
  cbn [forallb] in H. apply andb_true_iff in H as [He Hes].
  cbn [md_items forallb]. unfold item_ok at 1. cbn [fst snd].
  rewrite Hb, (block_of_strict idx e Hi He), IH; auto. lia.
Qed.

Lemma md_items_entries es : forall idx before,
  forallb readable es = true ->
  map entry_of_block (map snd (md_items before idx es)) = map hashed es.
Proof.
  induction es as [|e es IH]; intros idx before H; [reflexivity|].
  cbn [forallb] in H. apply andb_true_iff in H as [He Hes].
  cbn [md_items map snd]. rewrite (block_of_entry idx e He), IH; auto.
Qed.

(** X16.  The extractor reads the Markdown that [format_md] writes:
    for entries as the extractor makes them, each field in ASCII, on
    one line and without outer white space, the title without a closing
    bracket, the link without a closing parenthesis, the relevance not
    negative and within the limit on digits and the abstract not blank,
    the text of [format_md], alone or after an ASCII heading in which
    no entry head begins, gives the same entries in the same order, an
    empty link read back as [#]. *)
Theorem markdown_is_read_back generate query max_results es md before :
  forallb readable es = true ->
  format_md es = Some md ->
  isascii before = true ->
  head_free before = true ->
  generate (prompt query max_results) = Returns (before ++ md) ->
  gemini_scholar_search generate query max_results = map hashed es.
Proof.
  intros H F _ Hb G. unfold format_md in F.
  destruct (md_lines 1 es) as [bs|] eqn:M; [|discriminate F].
  injection F as <-.
  destruct es as [|e es].
  - cbn [md_lines] in M. injection M as <-. cbn [String.concat] in G.
    rewrite append_nil_r in G.
    apply (search_response generate query max_results [] before G eq_refl).
    apply scan_fragment, Hb.
  - rewrite (md_lines_response (e :: es) 1 bs before H M) in G by discriminate.
    rewrite (search_response generate query max_results _ "" G).
    + apply md_items_entries, H.
    + apply md_items_ok; auto. lia.
    + reflexivity.
Qed.

Lemma markdown_is_read_back_witness :
  forallb readable readable_entries = true /\
  format_md readable_entries = Some readable_markdown /\
  isascii ("# Research Results" ++ NL ++ NL) = true /\
  head_free ("# Research Results" ++ NL ++ NL) = true /\
  returning (("# Research Results" ++ NL ++ NL) ++ readable_markdown)
    (prompt "deep learning" 2)
  = Returns (("# Research Results" ++ NL ++ NL) ++ readable_markdown) /\
  gemini_scholar_search
    (returning (("# Research Results" ++ NL ++ NL) ++ readable_markdown))
    "deep learning" 2
  = map hashed readable_entries.
Proof.
  split; [reflexivity|]. split; [reflexivity|]. split; [reflexivity|].
  split; [reflexivity|]. split; [reflexivity|].
  apply (markdown_is_read_back
           (returning (("# Research Results" ++ NL ++ NL) ++ readable_markdown))
           "deep learning" 2 readable_entries readable_markdown
           ("# Research Results" ++ NL ++ NL)); reflexivity.
Defined.
